(** * ESP8266_Mesh: the device registry, the topology handler and the packet parser

    A shallow embedding of [user/mesh_device.c] (the list of registered
    nodes), of the response handler and the time-out sweep of
    [user/mesh_none.c], and of the protocol dispatch of [mesh_parser.c],
    together with the properties the specification states about them.

    Conventions of the embedding.
    - The static pointer [node_list] is the state; [None] is [NULL].
    - A heap block of [n] nodes is a Rocq list of length [n]; the member
      array [node_list->list] may be longer than the [entries_count-1]
      entries in use.  An access behind the end of a block is undefined in
      C; here such a read finds nothing and such a write is dropped (a read
      of the sweep there yields [freed_read idx], see below).  The
      predicate [wf] says that none occurs; the lemmas below show that
      adding, setting the root, updating time stamps and the time-out
      sweep keep it.
    - [mesh_device_list_get] hands out the pointer [node_list->list]
      itself, and [mesh_device_del] frees that block when it has removed an
      entry.  The time-out sweep goes on reading through the pointer it
      got.  While the block is live, such a read is a read of the block as
      the registry holds it; once the block is freed, C gives the read no
      meaning, and here it yields whatever the heap holds there by then:
      the value [freed_read idx], about which nothing is assumed.
    - [uint16_t] and [uint32_t] values are integers of [Z], with the
      wrap-around written where the source stores a computed value.
    - [os_zalloc] may fail: [os_zalloc_ok n] tells whether a request of [n]
      bytes is served.  [system_get_time()] is the reading [system_get_time]
      of the microsecond clock, one reading for the duration of a call.
    - A call either returns ([Done]), dereferences [NULL] ([Crash]) or is
      still looping when the fuel given to it is used up ([Spin]). *)

From Stdlib Require Import ZArith List Bool Lia.
From Stdlib.Strings Require Import Byte.
Import ListNotations.
Local Open Scope Z_scope.

(** ** Machine integers *)

Definition wrap16 (z : Z) : Z := z mod 65536.
Definition wrap32 (z : Z) : Z := z mod 4294967296.

(** ** Outcome of a call *)

Inductive exec (A : Type) : Type :=
| Done (a : A)
| Crash
| Spin.

Arguments Done {A} a.
Arguments Crash {A}.
Arguments Spin {A}.

Definition bind {A B : Type} (m : exec A) (k : A -> exec B) : exec B :=
  match m with
  | Done a => k a
  | Crash => Crash
  | Spin => Spin
  end.

Notation "x <- m ;; k" := (bind m (fun x => k))
  (at level 61, m at next level, right associativity).

(** ** mesh_device.h: the structs *)

(** [struct mesh_device_mac_type { uint8_t mac[6]; }] *)
Record mesh_device_mac_type : Type := Mac {
  mac0 : byte; mac1 : byte; mac2 : byte;
  mac3 : byte; mac4 : byte; mac5 : byte
}.

(** The array [mac] of the struct, as the bytes [os_memcmp] walks over. *)
Definition mac (a : mesh_device_mac_type) : list byte :=
  [mac0 a; mac1 a; mac2 a; mac3 a; mac4 a; mac5 a].

(** [sizeof(struct mesh_device_mac_type)] *)
Definition sizeof_mac : Z := 6.

(** [struct mesh_device_node_type { mac_addr; uint32_t timestamp; } __packed] *)
Record mesh_device_node_type : Type := Node {
  mac_addr : mesh_device_mac_type;
  timestamp : Z
}.

(** [sizeof(struct mesh_device_node_type)] (packed: 6 + 4 bytes) *)
Definition sizeof_node : Z := 10.

(** [struct mesh_device_list_type]: entry 1 is the root, entries 2..n are the
    registered nodes.  The field [list] of the source is [list_] here. *)
Record mesh_device_list_type : Type := NodeList {
  entries_count : Z;
  root : mesh_device_node_type;
  list_ : option (list mesh_device_node_type)
}.

(** [sizeof(struct mesh_device_list_type)] on the 32-bit target *)
Definition sizeof_list : Z := 16.

(** [static struct mesh_device_list_type *node_list] *)
Definition registry : Type := option mesh_device_list_type.

Definition set_entries_count (n : Z) (nl : mesh_device_list_type) :=
  {| entries_count := n; root := root nl; list_ := list_ nl |}.
Definition set_root (r : mesh_device_node_type) (nl : mesh_device_list_type) :=
  {| entries_count := entries_count nl; root := r; list_ := list_ nl |}.
Definition set_list (l : option (list mesh_device_node_type))
  (nl : mesh_device_list_type) :=
  {| entries_count := entries_count nl; root := root nl; list_ := l |}.
Definition set_mac_addr (m : mesh_device_mac_type) (e : mesh_device_node_type) :=
  {| mac_addr := m; timestamp := timestamp e |}.
Definition set_timestamp (t : Z) (e : mesh_device_node_type) :=
  {| mac_addr := mac_addr e; timestamp := t |}.

(** ** The memory primitives of osapi.h / mem.h *)

Definition zero_mac : mesh_device_mac_type := Mac x00 x00 x00 x00 x00 x00.
Definition zero_node : mesh_device_node_type := Node zero_mac 0.

(** What [os_zalloc] and [os_memset(node_list, 0, ...)] leave in the struct. *)
Definition zero_list : mesh_device_list_type := NodeList 0 zero_node None.

(** [os_memcmp(a, b, n)]: zero when the first [n] bytes agree, otherwise the
    difference of the first pair of bytes that differ. *)
Fixpoint memcmp_bytes (a b : list byte) (n : nat) : Z :=
  match n, a, b with
  | S k, x :: a', y :: b' =>
      if Byte.eqb x y then memcmp_bytes a' b' k
      else Z.of_N (Byte.to_N x) - Z.of_N (Byte.to_N y)
  | _, _, _ => 0
  end.

Definition os_memcmp (a b : mesh_device_mac_type) (n : Z) : Z :=
  memcmp_bytes (mac a) (mac b) (Z.to_nat n).

Arguments os_memcmp : simpl never.

(** A zero-filled block of [n] nodes. *)
Definition zalloc_nodes (n : Z) : list mesh_device_node_type :=
  repeat zero_node (Z.to_nat n).

(** [os_memcpy(&dst[off], src, n * sizeof(struct mesh_device_node_type))] *)
Definition memcpy_nodes (dst : list mesh_device_node_type) (off : nat)
  (src : list mesh_device_node_type) (n : nat) : list mesh_device_node_type :=
  firstn off dst ++ firstn n src ++ skipn (off + length (firstn n src)) dst.

(** [f] applied to the element [l[i]], in place. *)
Fixpoint array_upd {A : Type} (f : A -> A) (l : list A) (i : nat) : list A :=
  match l, i with
  | [], _ => []
  | x :: t, O => f x :: t
  | x :: t, S j => x :: array_upd f t j
  end.

(** The same with the index as the C expression computes it. *)
Definition array_upd_at {A : Type} (f : A -> A) (l : list A) (i : Z) : list A :=
  if i <? 0 then l else array_upd f l (Z.to_nat i).

(** The block behind [node_list->list] ([NULL] holds nothing). *)
Definition block (nl : mesh_device_list_type) : list mesh_device_node_type :=
  match list_ nl with
  | Some b => b
  | None => []
  end.

(** ** mesh_device.c *)

Section Device.

(** Whether [os_zalloc] serves a request of the given number of bytes. *)
Variable os_zalloc_ok : Z -> bool.

(** The value [system_get_time()] returns during the call. *)
Variable system_get_time : Z.

(** [mesh_device_list_init] *)
Definition mesh_device_list_init (node_list : registry) : registry :=
  match node_list with
  | None => if os_zalloc_ok sizeof_list then Some zero_list else None
  | Some _ => node_list
  end.

(** The body of [mesh_device_list_release]: the member array is freed and
    the struct zeroed. *)
Definition released (nl : mesh_device_list_type) : mesh_device_list_type :=
  zero_list.

(** [mesh_device_list_release]; [node_list] itself stays allocated. *)
Definition mesh_device_list_release (node_list : registry) : registry :=
  option_map released node_list.

(** The loop [for (idx = 0; idx < entries_count-1; idx++)] of
    [mesh_device_list_search], walking the block with [n] rounds left. *)
Fixpoint list_search_loop (l : list mesh_device_node_type) (n : nat)
  (node : mesh_device_mac_type) : bool :=
  match n, l with
  | S k, e :: t =>
      if os_memcmp (mac_addr e) node sizeof_mac =? 0 then true
      else list_search_loop t k node
  | _, _ => false
  end.

(** [mesh_device_list_search] *)
Definition mesh_device_list_search (node : option mesh_device_mac_type)
  (node_list : registry) : bool :=
  match node with
  | None => false
  | Some m =>
    match node_list with
    | None => false
    | Some nl =>
      if entries_count nl <=? 0 then false
      else if os_memcmp (mac_addr (root nl)) m sizeof_mac =? 0 then true
      else list_search_loop (block nl) (Z.to_nat (entries_count nl - 1)) m
    end
  end.

(** [mesh_device_list_get]: [None] is the return value [false] (the output
    parameters are left alone), otherwise the values stored into [*nodes]
    and [*count]. *)
Definition mesh_device_list_get (node_list : registry)
  : option (option (list mesh_device_node_type) * Z) :=
  match node_list with
  | None => None
  | Some nl =>
    if (entries_count nl <=? 1) || (match list_ nl with None => true | Some _ => false end)
    then Some (None, 0)
    else Some (list_ nl, entries_count nl - 1)
  end.

(** [mesh_device_root_get]: [None] is the return value [false]. *)
Definition mesh_device_root_get (node_list : registry)
  : option mesh_device_node_type :=
  match node_list with
  | None => None
  | Some nl => if entries_count nl <=? 0 then None else Some (root nl)
  end.

(** The two branches of [mesh_device_root_set] that install a root:
    [mesh_device_list_release()], copy the address, one entry. *)
Definition install_root (r : mesh_device_mac_type)
  (nl : mesh_device_list_type) : mesh_device_list_type :=
  let nl := released nl in
  set_entries_count 1 (set_root (set_mac_addr r (root nl)) nl).

(** [mesh_device_root_set] *)
Definition mesh_device_root_set (root_arg : option mesh_device_mac_type)
  (node_list : registry) : exec (bool * registry) :=
  match root_arg with
  | None => Done (false, node_list)
  | Some r =>
    let node_list :=
      match node_list with
      | None => mesh_device_list_init node_list
      | Some _ => node_list
      end in
    match node_list with
    | None => Crash
    | Some nl =>
      let nl' :=
        if entries_count nl <=? 0 then install_root r nl
        else if negb (os_memcmp (mac_addr (root nl)) r sizeof_mac =? 0)
             then install_root r nl
             else nl in
      if os_memcmp (mac_addr (root nl')) r sizeof_mac =? 0
      then Done (true, Some nl')
      else Done (false, Some nl')
    end
  end.

(** The inner loop of [mesh_device_update_timestamp]: the first entry with
    the address gets the time, then [break]. *)
Fixpoint touch_loop (l : list mesh_device_node_type) (n : nat)
  (node : mesh_device_mac_type) : list mesh_device_node_type :=
  match n, l with
  | S k, e :: t =>
      if os_memcmp (mac_addr e) node sizeof_mac =? 0
      then set_timestamp system_get_time e :: t
      else e :: touch_loop t k node
  | _, _ => l
  end.

(** One round of the [while] loop of [mesh_device_update_timestamp]. *)
Definition update_timestamp_step (nl : mesh_device_list_type)
  (node : mesh_device_mac_type) : mesh_device_list_type :=
  if mesh_device_list_search (Some node) (Some nl) then
    let nl1 :=
      if os_memcmp (mac_addr (root nl)) node sizeof_mac =? 0
      then set_root (set_timestamp system_get_time (root nl)) nl
      else nl in
    set_list
      (option_map
         (fun b => touch_loop b (Z.to_nat (entries_count nl1 - 1)) node)
         (list_ nl1))
      nl1
  else nl.

(** [mesh_device_update_timestamp]; [nodes] is the array of [count]
    addresses ([None] for [NULL]). *)
Definition mesh_device_update_timestamp (nodes : option (list mesh_device_mac_type))
  (node_list : registry) : bool * registry :=
  match nodes with
  | None => (false, node_list)
  | Some ns =>
    match node_list with
    | None => (false, node_list)
    | Some nl =>
      if entries_count nl <=? 0 then (false, node_list)
      else (true, Some (fold_left update_timestamp_step ns nl))
    end
  end.

(** The first loop of [mesh_device_add]: how many of the given addresses
    the search does not find ([new_nodes_count], a [uint16_t]). *)
Fixpoint count_new_nodes (nl : mesh_device_list_type)
  (nodes : list mesh_device_mac_type) (new_nodes_count : Z) : Z :=
  match nodes with
  | [] => new_nodes_count
  | n :: t =>
      count_new_nodes nl t
        (if negb (mesh_device_list_search (Some n) (Some nl))
         then wrap16 (new_nodes_count + 1)
         else new_nodes_count)
  end.

(** One round of the second loop of [mesh_device_add]: an address the
    search does not find is copied into [list[entries_count-1].mac_addr]
    and [entries_count] goes up. *)
Definition add_step (nl : mesh_device_list_type) (n : mesh_device_mac_type)
  : mesh_device_list_type :=
  if negb (mesh_device_list_search (Some n) (Some nl)) then
    set_entries_count (wrap16 (entries_count nl + 1))
      (set_list
         (option_map
            (fun b => array_upd_at (set_mac_addr n) b (entries_count nl - 1))
            (list_ nl))
         nl)
  else nl.

(** [mesh_device_add] *)
Definition mesh_device_add (nodes : option (list mesh_device_mac_type))
  (node_list : registry) : bool * registry :=
  match nodes with
  | None => (false, node_list)
  | Some ns =>
    match node_list with
    | None => (false, node_list)
    | Some nl =>
      if entries_count nl <? 1 then (false, node_list)
      else if 0 <? Z.of_nat (length ns) then
        let new_nodes_count := count_new_nodes nl ns 0 in
        if 0 <? new_nodes_count then
          if os_zalloc_ok ((entries_count nl - 1 + new_nodes_count) * sizeof_node)
          then
            let buf := zalloc_nodes (entries_count nl - 1 + new_nodes_count) in
            let buf :=
              match list_ nl with
              | Some old =>
                  if 1 <? entries_count nl
                  then memcpy_nodes buf 0 old (Z.to_nat (entries_count nl - 1))
                  else buf
              | None => buf
              end in
            (true, Some (fold_left add_step ns (set_list (Some buf) nl)))
          else (false, node_list)
        else (true, node_list)
      else (true, node_list)
    end
  end.

(** The [for] loop of [mesh_device_del]: the index of the first entry in
    use that carries the address. *)
Fixpoint del_find (l : list mesh_device_node_type) (n : nat)
  (node : mesh_device_mac_type) (idx : nat) : option nat :=
  match n, l with
  | S k, e :: t =>
      if os_memcmp (mac_addr e) node sizeof_mac =? 0 then Some idx
      else del_find t k node (S idx)
  | _, _ => None
  end.

(** The body run at that index: unless the entry is the last one, the
    entries behind it move one place to the front (the copy runs upwards
    from [&list[idx+1]] to [&list[idx]]); [entries_count] goes down. *)
Definition del_entry (nl : mesh_device_list_type) (node : mesh_device_mac_type)
  : mesh_device_list_type :=
  match del_find (block nl) (Z.to_nat (entries_count nl - 1)) node 0 with
  | Some idx =>
      let move b :=
        if Z.of_nat idx <? entries_count nl - 2
        then memcpy_nodes b idx (skipn (S idx) b)
               (Z.to_nat (entries_count nl - 1 - (Z.of_nat idx + 1)))
        else b in
      set_entries_count (wrap16 (entries_count nl - 1))
        (set_list (option_map move (list_ nl)) nl)
  | None => nl
  end.

(** The [while] loop of [mesh_device_del] over the addresses from
    [redundant_nodes_idx] on.  The index moves on only inside the branch
    of a found address.  The length handed to [os_memcmp] in the root test
    is the value of [sizeof(struct mesh_device_mac_type) == 0].  The
    boolean of the result tells whether the function returned from inside
    the loop. *)
Fixpoint del_loop (fuel : nat) (nodes : list mesh_device_mac_type)
  (nl : mesh_device_list_type) : exec (bool * mesh_device_list_type) :=
  match fuel with
  | O => Spin
  | S fuel' =>
    match nodes with
    | [] => Done (false, nl)
    | n :: rest =>
      if mesh_device_list_search (Some n) (Some nl) then
        if negb (os_memcmp (mac_addr (root nl)) n (Z.b2z (sizeof_mac =? 0)) =? 0)
        then Done (true, released nl)
        else del_loop fuel' rest (del_entry nl n)
      else del_loop fuel' nodes nl
    end
  end.

(** [mesh_device_del] *)
Definition mesh_device_del (fuel : nat)
  (nodes : option (list mesh_device_mac_type)) (node_list : registry)
  : exec (bool * registry) :=
  match nodes with
  | None => Done (true, node_list)
  | Some ns =>
    if Z.of_nat (length ns) <=? 0 then Done (true, node_list)
    else
      match node_list with
      | None => Done (false, node_list)
      | Some nl =>
        if entries_count nl <=? 0 then Done (true, node_list)
        else
          let entries_count_cpy := entries_count nl in
          r <- del_loop fuel ns nl ;;
          let '(returned, nl) := r in
          if returned then Done (true, Some nl)
          else if negb (entries_count nl =? entries_count_cpy) then
            if 1 <? entries_count nl then
              if os_zalloc_ok ((entries_count nl - 1) * sizeof_node) then
                let buf :=
                  memcpy_nodes (zalloc_nodes (entries_count nl - 1)) 0
                    (block nl) (Z.to_nat (entries_count nl - 1)) in
                Done (true, Some (set_list (Some buf) nl))
              else Done (false, Some nl)
            else Done (true, Some (set_list None nl))
          else Done (true, Some nl)
      end
  end.

End Device.

Arguments mesh_device_list_search : simpl never.
Arguments add_step : simpl never.
Arguments del_entry : simpl never.
Arguments update_timestamp_step : simpl never.

(** ** Test vectors *)

(** Test addresses. *)
Definition mac_R : mesh_device_mac_type := Mac xa2 x20 xa6 x17 xd2 xeb.
Definition mac_A : mesh_device_mac_type := Mac x5c xcf x7f x00 x00 x01.
Definition mac_B : mesh_device_mac_type := Mac x5c xcf x7f x00 x00 x02.
Definition mac_C : mesh_device_mac_type := Mac x5c xcf x7f x00 x00 x03.

(** An allocator that serves every request, and one with the heap of the
    device: a request of 655350 bytes (65535 nodes) or more is refused. *)
Definition plenty (n : Z) : bool := true.
Definition device_heap (n : Z) : bool := n <? 655350.

(** Freed memory that reads as zero: entries with the address
    00:00:00:00:00:00 and the time stamp 0. *)
Definition cleared (idx : nat) : mesh_device_node_type := zero_node.

(** ** What the code uses of the SDK's mesh.h *)

(** [struct mesh_header_option_format { otype; olen; ovalue[] }], as far as
    the handler reads it: the length in bytes and the value bytes. *)
Record mesh_header_option_format : Type := MeshOption {
  olen : Z;
  ovalue : list byte
}.

(** The bytes of an option value ([option->ovalue], cast to a pointer to
    [struct mesh_device_mac_type]) read as an array of [count] addresses. *)
Fixpoint mac_array (bytes : list byte) (count : nat) {struct count}
  : list mesh_device_mac_type :=
  match count with
  | O => []
  | S k =>
    match bytes with
    | b0 :: b1 :: b2 :: b3 :: b4 :: b5 :: rest =>
        Mac b0 b1 b2 b3 b4 b5 :: mac_array rest k
    | _ => []
    end
  end.

(** [SUB_NODE_TIMEOUT_THRESHOLD] of user_config.h, in milliseconds. *)
Definition SUB_NODE_TIMEOUT_THRESHOLD : Z := 30000.

(** What the parser prints or does, in order. *)
Inductive parser_event : Type :=
| Invalid_transfer_parameters
| No_handler_function_available
| Protocol_is_not_supported
| Failed_to_resolve_the_protocol
| Handler_invoked (idx : Z).

Section Mesh.

Variable os_zalloc_ok : Z -> bool.
Variable system_get_time : Z.

(** What the sweep reads as entry [idx] through its pointer once the block
    behind the pointer has been freed (or behind the end of the block). *)
Variable freed_read : nat -> mesh_device_node_type.

(** The packet a [struct mesh_header_format *] (or the [uint8_t *] it was
    cast from) points to, with the accessors of the mesh library. *)
Variable mesh_header_format : Type.

(** [header->src_addr] *)
Variable src_addr : mesh_header_format -> mesh_device_mac_type.

(** [espconn_mesh_get_option(header, M_O_TOPO_RESP, op_idx, &option)]:
    the option stored on success. *)
Variable espconn_mesh_get_option :
  mesh_header_format -> Z -> option mesh_header_option_format.

(** [espconn_mesh_get_usr_data_proto(header, &protocol)] *)
Variable espconn_mesh_get_usr_data_proto : mesh_header_format -> option Z.

(** [espconn_mesh_get_usr_data(header, &usr_data, &usr_data_len)] *)
Variable espconn_mesh_get_usr_data :
  mesh_header_format -> option (mesh_header_format * Z).

(** [M_PROTO_NONE] of [enum mesh_usr_proto_type] *)
Variable M_PROTO_NONE : Z.

(** *** mesh_none.c *)

(** The test of the time-out sweep: [(system_get_time() - timestamp) / 1000
    > threshold], in [uint32_t] arithmetic (the [int] threshold is converted
    too); the division turns microseconds into the milliseconds of the
    threshold. *)
Definition timed_out (threshold : Z) (e : mesh_device_node_type) : bool :=
  wrap32 threshold <? wrap32 (system_get_time - timestamp e) / 1000.

(** Whether the call of [mesh_device_del] that turned [node_list] into the
    result [r] has freed the block [node_list->list] pointed to before.  It
    has ([os_free(node_list->list)] behind the loop, or
    [mesh_device_list_release()]) unless it removed nothing or returned
    false, the smaller block being refused. *)
Definition del_freed_list (node_list : registry) (r : bool * registry) : bool :=
  let count st :=
    match st with
    | Some nl => entries_count nl
    | None => 0
    end in
  fst r && negb (count (snd r) =? count node_list).

(** [node_list_list_cpy[idx]] while the pointer still is [node_list->list]:
    the entry of the live block. *)
Definition read_entry (node_list : registry) (idx : nat) : mesh_device_node_type :=
  match node_list with
  | Some nl => nth idx (block nl) (freed_read idx)
  | None => freed_read idx
  end.

(** The loop [while (dev_idx-- > 0)] that deletes the nodes whose time
    stamp lies further back than the threshold.  [node_list_list_cpy] is
    the pointer [mesh_device_list_get] handed out; [dangling] tells whether
    a deletion has freed the block behind it since.  The entry is read
    once for the test and, through the pointer given to [mesh_device_del],
    for the comparisons there, all before the heap changes again. *)
Fixpoint timeout_loop (threshold : Z) (fuel : nat) (dangling : bool)
  (dev_idx : nat) (node_list : registry) : exec registry :=
  match dev_idx with
  | O => Done node_list
  | S k =>
    let e := if dangling then freed_read k else read_entry node_list k in
    if timed_out threshold e then
      r <- mesh_device_del os_zalloc_ok fuel (Some [mac_addr e]) node_list ;;
      timeout_loop threshold fuel (dangling || del_freed_list node_list r) k
        (snd r)
    else timeout_loop threshold fuel dangling k node_list
  end.

(** The block "get all currently registered nodes, delete all nodes whose
    timestamp exceeds the defined timeout-threshold" shared by
    [mesh_parser_protocol_none] and [mesh_topology_test].  When
    [mesh_device_list_get] fails, [dev_idx] is still 0. *)
Definition delete_timed_out (threshold : Z) (fuel : nat) (node_list : registry)
  : exec registry :=
  match mesh_device_list_get node_list with
  | Some (Some _, dev_idx) =>
      timeout_loop threshold fuel false (Z.to_nat dev_idx) node_list
  | _ => Done node_list
  end.

(** The body of the loop over the options: the value of the option is an
    array of [olen / 6] addresses, which are added and, if the add
    succeeds, get the current time. *)
Definition topo_resp_option (option : mesh_header_option_format)
  (node_list : registry) : registry :=
  let dev_count := olen option / sizeof_mac in
  let dev_mac := mac_array (ovalue option) (Z.to_nat dev_count) in
  let '(added, node_list) :=
    mesh_device_add os_zalloc_ok (Some dev_mac) node_list in
  if added
  then snd (mesh_device_update_timestamp system_get_time (Some dev_mac) node_list)
  else node_list.

(** The loop [while (espconn_mesh_get_option(header, M_O_TOPO_RESP,
    op_idx++, &option))] of [mesh_parser_protocol_none]. *)
Fixpoint topo_resp_options (fuel : nat) (header : mesh_header_format)
  (op_idx : Z) (node_list : registry) : exec registry :=
  match fuel with
  | O => Spin
  | S fuel' =>
    match espconn_mesh_get_option header op_idx with
    | Some option =>
        topo_resp_options fuel' header (wrap16 (op_idx + 1))
          (topo_resp_option option node_list)
    | None => Done node_list
    end
  end.

(** [mesh_parser_protocol_none] from the point where
    [mesh_device_root_set] has returned [root_set_ok]: the time stamp of
    the source on success, a message otherwise; then the options, the
    time-out sweep and the display. *)
Definition topo_resp_after_root_set (fuel : nat) (header : mesh_header_format)
  (root_set_ok : bool) (node_list : registry) : exec registry :=
  let node_list :=
    if root_set_ok
    then snd (mesh_device_update_timestamp system_get_time
                (Some [src_addr header]) node_list)
    else node_list in
  node_list <- topo_resp_options fuel header 1 node_list ;;
  delete_timed_out SUB_NODE_TIMEOUT_THRESHOLD fuel node_list.

(** [mesh_parser_protocol_none] *)
Definition mesh_parser_protocol_none (fuel : nat)
  (mesh_header data : option mesh_header_format) (len : Z)
  (node_list : registry) : exec registry :=
  match mesh_header, data with
  | Some _, Some header =>
    if len <=? 0 then Done node_list
    else
      match espconn_mesh_get_option header 1 with
      | Some _ =>
          r <- mesh_device_root_set os_zalloc_ok (Some (src_addr header))
                 node_list ;;
          topo_resp_after_root_set fuel header (fst r) (snd r)
      | None => Done node_list
      end
  | _, _ => Done node_list
  end.

(** *** mesh_parser.h, mesh_parser.c *)

(** [mesh_parser_protocol_handler]: what a handler does to the registry. *)
Definition mesh_parser_protocol_handler : Type :=
  option mesh_header_format -> option mesh_header_format -> Z ->
  registry -> exec registry.

(** [struct mesh_parser_protocol_type]; a [NULL] handler is [None]. *)
Record mesh_parser_protocol_type : Type := Protocol {
  protocol : Z;
  handler : option mesh_parser_protocol_handler
}.

(** [supported_protocols] *)
Definition supported_protocols (fuel : nat) : list mesh_parser_protocol_type :=
  [ Protocol M_PROTO_NONE (Some (mesh_parser_protocol_none fuel)) ].

(** The [for] loop of [mesh_packet_parser] over the entries from [idx]
    on: the value of [idx] behind the loop, what happened, the registry. *)
Fixpoint parser_scan (table : list mesh_parser_protocol_type) (idx : Z)
  (proto : Z) (header : mesh_header_format)
  (usr_data : mesh_header_format) (usr_data_len : Z) (node_list : registry)
  : Z * list parser_event * exec registry :=
  match table with
  | [] => (idx, [], Done node_list)
  | entry :: rest =>
      if protocol entry =? proto then
        match handler entry with
        | None => (idx, [No_handler_function_available], Done node_list)
        | Some h =>
            (idx, [Handler_invoked idx],
             h (Some header) (Some usr_data) usr_data_len node_list)
        end
      else parser_scan rest (idx + 1) proto header usr_data usr_data_len
             node_list
  end.

(** [mesh_packet_parser], over the table it is compiled with. *)
Definition mesh_packet_parser (table : list mesh_parser_protocol_type)
  (arg : option unit) (data : option mesh_header_format) (len : Z)
  (node_list : registry) : list parser_event * exec registry :=
  match arg, data with
  | Some _, Some header =>
    if len <=? 0 then ([Invalid_transfer_parameters], Done node_list)
    else
      let protocol_count := Z.of_nat (length table) in
      match espconn_mesh_get_usr_data_proto header with
      | Some proto =>
          let '(usr_data, usr_data_len) :=
            match espconn_mesh_get_usr_data header with
            | Some u => u
            | None => (header, len)
            end in
          let '(idx, events, result) :=
            parser_scan table 0 proto header usr_data usr_data_len node_list in
          (events ++
             (if idx =? protocol_count then [Protocol_is_not_supported] else []),
           result)
      | None => ([Failed_to_resolve_the_protocol], Done node_list)
      end
  | _, _ => ([Invalid_transfer_parameters], Done node_list)
  end.

End Mesh.

Arguments Protocol {mesh_header_format} protocol handler.
Arguments protocol {mesh_header_format} _.
Arguments handler {mesh_header_format} _.
Arguments parser_scan {mesh_header_format} table idx proto header usr_data
  usr_data_len node_list.
Arguments mesh_packet_parser {mesh_header_format}
  espconn_mesh_get_usr_data_proto espconn_mesh_get_usr_data table arg data len
  node_list.
Arguments topo_resp_options os_zalloc_ok system_get_time {mesh_header_format}
  espconn_mesh_get_option fuel header op_idx node_list.
Arguments topo_resp_after_root_set os_zalloc_ok system_get_time freed_read
  {mesh_header_format} src_addr espconn_mesh_get_option fuel header root_set_ok
  node_list.
Arguments mesh_parser_protocol_none os_zalloc_ok system_get_time freed_read
  {mesh_header_format} src_addr espconn_mesh_get_option fuel mesh_header data
  len node_list.
Arguments supported_protocols os_zalloc_ok system_get_time freed_read
  {mesh_header_format} src_addr espconn_mesh_get_option M_PROTO_NONE fuel.

(** ** A packet for test vectors *)

(** A received packet reduced to what the accessors report: the source
    address, the protocol (if it resolves) and the topology-response
    options in their order.  It carries no separate data part. *)
Record sample_packet : Type := SamplePacket {
  sample_src : mesh_device_mac_type;
  sample_proto : option Z;
  sample_options : list mesh_header_option_format
}.

Definition sample_get_option (p : sample_packet) (op_idx : Z)
  : option mesh_header_option_format :=
  if op_idx <? 1 then None
  else nth_error (sample_options p) (Z.to_nat (op_idx - 1)).

Definition sample_get_usr_data (p : sample_packet)
  : option (sample_packet * Z) := None.

(** The topology table of this repository over sample packets, with
    [M_PROTO_NONE] = 0. *)
Definition sample_table (now : Z) (fuel : nat)
  : list (mesh_parser_protocol_type sample_packet) :=
  supported_protocols plenty now cleared sample_src sample_get_option 0 fuel.

(** Equality of addresses is decidable. *)
Definition mac_eq_dec (a b : mesh_device_mac_type) : {a = b} + {a <> b}.
Proof. decide equality; apply Byte.byte_eq_dec. Defined.

(** ** The views of the registry *)

(** The entries in use of the member array. *)
Definition members (nl : mesh_device_list_type) : list mesh_device_node_type :=
  firstn (Z.to_nat (entries_count nl - 1)) (block nl).

(** The registered sub-nodes as a caller of [mesh_device_list_get] sees
    them: the first [count] elements behind the pointer. *)
Definition snapshot (node_list : registry) : list mesh_device_node_type :=
  match mesh_device_list_get node_list with
  | Some (Some l, count) => firstn (Z.to_nat count) l
  | _ => []
  end.

(** The addresses of a list of entries. *)
Definition addresses (l : list mesh_device_node_type) : list mesh_device_mac_type :=
  map mac_addr l.

(** The blocks are large enough for the entries in use, and the counter is
    a [uint16_t]. *)
Definition wf (nl : mesh_device_list_type) : Prop :=
  0 <= entries_count nl <= 65535 /\
  entries_count nl - 1 <= Z.of_nat (length (block nl)).

(** No address twice among the members, and the root not among them. *)
Definition unique (node_list : registry) : Prop :=
  NoDup (addresses (snapshot node_list)) /\
  forall r, mesh_device_root_get node_list = Some r ->
            ~ In (mac_addr r) (addresses (snapshot node_list)).

(** What [mesh_device_root_set] leaves when it installs [s]. *)
Definition only_root (s : mesh_device_mac_type) : registry :=
  Some (NodeList 1 (Node s 0) None).

(** [e'] is [e] up to its time stamp, and is [e] unless the address of [e]
    is one of those [P] allows to be touched. *)
Definition touched_only (P : mesh_device_mac_type -> Prop)
  (e e' : mesh_device_node_type) : Prop :=
  mac_addr e' = mac_addr e /\ (~ P (mac_addr e) -> timestamp e' = timestamp e).

(** The same for a whole list struct: counter and blocks keep their shape. *)
Definition frame (P : mesh_device_mac_type -> Prop)
  (nl nl' : mesh_device_list_type) : Prop :=
  entries_count nl' = entries_count nl /\
  touched_only P (root nl) (root nl') /\
  match list_ nl, list_ nl' with
  | Some b, Some b' => Forall2 (touched_only P) b b'
  | None, None => True
  | _, _ => False
  end.

(** The addresses the registry holds: the root's and the members'. *)
Definition known (nl : mesh_device_list_type) : list mesh_device_mac_type :=
  mac_addr (root nl) :: addresses (members nl).

(** The specification's reading of what an add appends: the given
    addresses that are not present, each once, in the order given. *)
Fixpoint fresh_addresses (present nodes : list mesh_device_mac_type)
  : list mesh_device_mac_type :=
  match nodes with
  | [] => []
  | n :: rest =>
      if in_dec mac_eq_dec n present then fresh_addresses present rest
      else n :: fresh_addresses (n :: present) rest
  end.

(** The entry an add leaves for an address: the zero of the fresh block
    with the address copied in. *)
Definition new_entry (a : mesh_device_mac_type) : mesh_device_node_type :=
  Node a 0.

(** The test of both loops of [mesh_device_add]. *)
Definition not_registered (nl : mesh_device_list_type)
  (n : mesh_device_mac_type) : bool :=
  negb (mesh_device_list_search (Some n) (Some nl)).

(** The number of bytes [mesh_device_add] asks [os_zalloc] for. *)
Definition add_request (nl : mesh_device_list_type)
  (nodes : list mesh_device_mac_type) : Z :=
  (entries_count nl - 1 + Z.of_nat (length (filter (not_registered nl) nodes)))
  * sizeof_node.

(** ** Sequences of calls *)

(** A call of [mesh_device_add] on an array of addresses, or of
    [mesh_device_root_set] on an address. *)
Inductive registry_call : Type :=
| Call_add (nodes : list mesh_device_mac_type)
| Call_root_set (addr : mesh_device_mac_type).

Definition call (os_zalloc_ok : Z -> bool) (c : registry_call)
  (node_list : registry) : exec registry :=
  match c with
  | Call_add nodes => Done (snd (mesh_device_add os_zalloc_ok (Some nodes) node_list))
  | Call_root_set addr =>
      r <- mesh_device_root_set os_zalloc_ok (Some addr) node_list ;;
      Done (snd r)
  end.

Fixpoint run (os_zalloc_ok : Z -> bool) (calls : list registry_call)
  (node_list : registry) : exec registry :=
  match calls with
  | [] => Done node_list
  | c :: rest =>
      node_list' <- call os_zalloc_ok c node_list ;;
      run os_zalloc_ok rest node_list'
  end.

(** The count of an array of addresses is a [uint16_t]. *)
Definition call_fits (c : registry_call) : Prop :=
  match c with
  | Call_add nodes => Z.of_nat (length nodes) <= 65535
  | Call_root_set _ => True
  end.

(** What every operation keeps: the blocks fit, and with a root set the
    addresses of root and members are pairwise different. *)
Definition registry_inv (node_list : registry) : Prop :=
  match node_list with
  | None => True
  | Some nl => wf nl /\ (1 <= entries_count nl -> NoDup (known nl))
  end.




(** ** mesh_none.c: the topology test *)

(** The buffers [mesh_topology_test] gets from the mesh library for its
    request. *)
Inductive topology_buffer : Type :=
| Request_packet
| Request_option.

(** What [mesh_topology_test] does besides working on the registry, in
    order: the buffers it is given, the call of [espconn_mesh_sent] with
    its result, the buffers it frees, and the release of the node
    information by the second call of [espconn_mesh_get_node_info]. *)
Inductive topology_event : Type :=
| Created (b : topology_buffer)
| Send_request (result : Z)
| Freed (b : topology_buffer)
| Node_info_released.

(** The answers of the mesh library and of the WiFi driver during one call
    of [mesh_topology_test]: whether [esp_mesh_conn] is set, the status,
    the role, the array of [espconn_mesh_get_node_info] ([None] when the
    call fails), the WiFi mode, whether the packet and the option are
    created and the option is added, and the result of sending. *)
Record topology_env : Type := TopologyEnv {
  esp_mesh_conn : bool;
  espconn_mesh_get_status : Z;
  espconn_mesh_is_root : bool;
  espconn_mesh_get_node_info : option (list mesh_device_mac_type);
  wifi_get_opmode : Z;
  espconn_mesh_create_packet : bool;
  espconn_mesh_create_option : bool;
  espconn_mesh_add_option : bool;
  espconn_mesh_sent : Z
}.

Section TopologyTest.

Variable os_zalloc_ok : Z -> bool.
Variable system_get_time : Z.
Variable freed_read : nat -> mesh_device_node_type.

(** The values of [enum mesh_status] at which the node is available. *)
Variable MESH_LOCAL_AVAIL : Z.
Variable MESH_ONLINE_AVAIL : Z.
Variable MESH_SOFTAP_AVAIL : Z.
Variable MESH_LEAF_AVAIL : Z.

(** The WiFi modes of user_interface.h. *)
Variable SOFTAP_MODE : Z.
Variable STATION_MODE : Z.
Variable STATIONAP_MODE : Z.

(** The root role from the point where [espconn_mesh_get_node_info] has
    handed out [sub_dev_mac] with its [sub_dev_count] addresses: the first
    is set as root and stamped, the others are added and stamped, then the
    time-out sweep. *)
Definition topology_root_role (fuel : nat)
  (sub_dev_mac : list mesh_device_mac_type) (node_list : registry)
  : exec registry :=
  let sub_dev_count := Z.of_nat (length sub_dev_mac) in
  node_list <-
    (match sub_dev_mac with
     | router :: subs =>
         r <- mesh_device_root_set os_zalloc_ok (Some router) node_list ;;
         (let node_list :=
            if fst r
            then snd (mesh_device_update_timestamp system_get_time
                        (Some [router]) (snd r))
            else snd r in
          if 1 <? sub_dev_count then
            let '(added, node_list) :=
              mesh_device_add os_zalloc_ok (Some subs) node_list in
            Done (if added
                  then snd (mesh_device_update_timestamp system_get_time
                              (Some subs) node_list)
                  else node_list)
          else Done node_list)
     | [] => Done node_list
     end) ;;
  delete_timed_out os_zalloc_ok system_get_time freed_read
    SUB_NODE_TIMEOUT_THRESHOLD fuel node_list.

(** The code behind the request: [if (header) os_free(header); if (option)
    os_free(option);], on the pointers as they are by then. *)
Definition free_request (header option : bool) : list topology_event :=
  (if header then [Freed Request_packet] else []) ++
  (if option then [Freed Request_option] else []).

(** The other role from the point where the WiFi mode has been read: the
    request is built and sent.  The return value and what was done. *)
Definition topology_request (env : topology_env) : bool * list topology_event :=
  let op_mode := wifi_get_opmode env in
  if (op_mode =? SOFTAP_MODE) || (op_mode =? STATION_MODE)
     || (op_mode =? STATIONAP_MODE) then
    if espconn_mesh_create_packet env then
      if espconn_mesh_create_option env then
        if espconn_mesh_add_option env then
          if espconn_mesh_sent env =? 0 then
            (true, [Created Request_packet; Created Request_option;
                    Send_request (espconn_mesh_sent env);
                    Freed Request_packet; Freed Request_option])
          else
            (false, [Created Request_packet; Created Request_option;
                     Send_request (espconn_mesh_sent env)]
                    ++ free_request true true)
        else
          (false, [Created Request_packet; Created Request_option]
                  ++ free_request true true)
      else (false, [Created Request_packet] ++ free_request true false)
    else (false, free_request false false)
  else (false, []).

(** [mesh_topology_test].  The return value is [None] where control
    reaches the end of the function without a [return]: in the root role
    when [espconn_mesh_get_node_info] fails. *)
Definition mesh_topology_test (fuel : nat) (env : topology_env)
  (node_list : registry)
  : exec (option bool * list topology_event * registry) :=
  if negb (esp_mesh_conn env) then Done (Some false, [], node_list)
  else
    let mesh_status := espconn_mesh_get_status env in
    if negb ((mesh_status =? MESH_LOCAL_AVAIL) || (mesh_status =? MESH_ONLINE_AVAIL)
             || (mesh_status =? MESH_SOFTAP_AVAIL)
             || (mesh_status =? MESH_LEAF_AVAIL))
    then Done (Some false, [], node_list)
    else if espconn_mesh_is_root env then
      match espconn_mesh_get_node_info env with
      | Some sub_dev_mac =>
          node_list <- topology_root_role fuel sub_dev_mac node_list ;;
          Done (Some true, [Node_info_released], node_list)
      | None => Done (None, [], node_list)
      end
    else if negb (esp_mesh_conn env) then Done (Some false, [], node_list)
    else
      let '(result, events) := topology_request env in
      Done (Some result, events, node_list).

End TopologyTest.

(** ** esp_mesh.c *)

Definition wrap8 (z : Z) : Z := z mod 256.

(** [enum op_mode] of esp_mesh.h *)
Inductive op_mode : Type :=
| ROOT_NODE
| SUB_NODE
| DISABLED.

(** [OPERATION_MODE_THRESHOLD] (in milliseconds),
    [MESH_ENABLE_ATTEMPTS_LIMIT] and [MAX_HOPS] of user_config.h. *)
Definition OPERATION_MODE_THRESHOLD : Z := 3000.
Definition MESH_ENABLE_ATTEMPTS_LIMIT : Z := 3.
Definition MAX_HOPS : Z := 4.

(** The static variables the button handlers and the callbacks of
    [espconn_mesh_enable] and [espconn_mesh_disable] compute with.  The
    pointers to the socket, the station configuration and the timers are
    left out. *)
Record esp_mesh_state : Type := EspMesh {
  mode : op_mode;
  actuation_start_time : Z;
  esp_mesh_enable_attempt_count : Z
}.

(** The initializers of the three variables. *)
Definition esp_mesh_initial : esp_mesh_state := EspMesh DISABLED 0 1.

(** What a callback asks of the mesh library: [espconn_mesh_enable] with
    itself as callback, or [espconn_mesh_disable] with
    [esp_mesh_disable_cb]. *)
Inductive mesh_request : Type :=
| Mesh_enable
| Mesh_disable.

(** [button_pressed_interrupt_handler] *)
Definition button_pressed_interrupt_handler (system_get_time : Z)
  (s : esp_mesh_state) : esp_mesh_state :=
  EspMesh (mode s) system_get_time (esp_mesh_enable_attempt_count s).

(** [button_released_interrupt_handler] up to its call of [mesh_init]:
    the time of the actuation in milliseconds, in [uint32_t] arithmetic,
    decides the mode. *)
Definition button_released_interrupt_handler (system_get_time : Z)
  (s : esp_mesh_state) : esp_mesh_state :=
  let actuation_time :=
    wrap32 (system_get_time - actuation_start_time s) / 1000 in
  EspMesh
    (if OPERATION_MODE_THRESHOLD <? actuation_time then ROOT_NODE else SUB_NODE)
    (actuation_start_time s) (esp_mesh_enable_attempt_count s).

Section EspMeshCallbacks.

(** [MESH_OP_FAILURE] of mesh.h *)
Variable MESH_OP_FAILURE : Z.

(** [esp_mesh_enable_cb]; [regist_recvcb] is what [espconn_regist_recvcb]
    returns if it is called. *)
Definition esp_mesh_enable_cb (result regist_recvcb : Z) (s : esp_mesh_state)
  : esp_mesh_state * list mesh_request :=
  if result =? MESH_OP_FAILURE then
    if esp_mesh_enable_attempt_count s <? MESH_ENABLE_ATTEMPTS_LIMIT then
      (EspMesh (mode s) (actuation_start_time s)
         (wrap8 (esp_mesh_enable_attempt_count s + 1)),
       [Mesh_enable])
    else (s, [Mesh_disable])
  else
    let s := EspMesh (mode s) (actuation_start_time s) 1 in
    if negb (regist_recvcb =? 0) then (s, [Mesh_disable]) else (s, []).

(** [esp_mesh_disable_cb].  The statement [mode == DISABLED;] compares
    and stores nothing. *)
Definition esp_mesh_disable_cb (s : esp_mesh_state) : esp_mesh_state :=
  EspMesh (mode s) (actuation_start_time s) 1.

(** What the SDK calls, with the clock reading or the arguments.  The
    other functions of esp_mesh.c store to none of the three variables. *)
Inductive esp_mesh_event : Type :=
| Button_pressed (system_get_time : Z)
| Button_released (system_get_time : Z)
| Enable_cb (result regist_recvcb : Z)
| Disable_cb.

Definition esp_mesh_step (e : esp_mesh_event) (s : esp_mesh_state)
  : esp_mesh_state * list mesh_request :=
  match e with
  | Button_pressed t => (button_pressed_interrupt_handler t s, [])
  | Button_released t => (button_released_interrupt_handler t s, [])
  | Enable_cb result regist_recvcb => esp_mesh_enable_cb result regist_recvcb s
  | Disable_cb => (esp_mesh_disable_cb s, [])
  end.

(** A sequence of such calls: the state it leaves and the requests made. *)
Fixpoint esp_mesh_run (events : list esp_mesh_event) (s : esp_mesh_state)
  : esp_mesh_state * list mesh_request :=
  match events with
  | [] => (s, [])
  | e :: rest =>
      let '(s1, requests1) := esp_mesh_step e s in
      let '(s2, requests2) := esp_mesh_run rest s1 in
      (s2, requests1 ++ requests2)
  end.

End EspMeshCallbacks.

(** The bound of the heap check of [esp_mesh_config]: the expression
    [(4^MAX_HOPS-1)/3*6], in which [^] is the exclusive or of C and binds
    weaker than [-]. *)
Definition heap_required (max_hops : Z) : Z :=
  Z.lxor 4 (max_hops - 1) / 3 * 6.

(** The answers of the SDK during [esp_mesh_config]. *)
Record config_env : Type := ConfigEnv {
  espconn_mesh_encrypt_init : bool;
  system_get_free_heap_size : Z;
  espconn_mesh_set_max_hops : bool;
  espconn_mesh_set_ssid_prefix : bool;
  espconn_mesh_group_id_init : bool
}.

(** [esp_mesh_config], for the value of [MAX_HOPS] it is compiled with.
    The comparison is made in [uint32_t]. *)
Definition esp_mesh_config (max_hops : Z) (env : config_env) : bool :=
  if negb (espconn_mesh_encrypt_init env) then false
  else if wrap32 (heap_required max_hops) <? system_get_free_heap_size env then
    if negb (espconn_mesh_set_max_hops env) then false
    else if negb (espconn_mesh_set_ssid_prefix env) then false
    else if negb (espconn_mesh_group_id_init env) then false
    else true
  else false.

(** ** Further notions used in the properties *)

(** Whether the address of an entry is among the given ones. *)
Definition listed (ns : list mesh_device_mac_type)
  (e : mesh_device_node_type) : bool :=
  if in_dec mac_eq_dec (mac_addr e) ns then true else false.


(** The buffers a list of events creates and frees, in order. *)
Definition created (events : list topology_event) : list topology_buffer :=
  flat_map (fun e => match e with Created b => [b] | _ => [] end) events.

Definition freed (events : list topology_event) : list topology_buffer :=
  flat_map (fun e => match e with Freed b => [b] | _ => [] end) events.

(** * Properties *)

(** ** Comparing addresses *)

Lemma byte_diff_nonzero (x y : byte) :
  Byte.eqb x y = false -> Z.of_N (Byte.to_N x) - Z.of_N (Byte.to_N y) <> 0.
Proof.
  intros Hne Hz.
  apply Byte.eqb_false in Hne. apply Hne.
  assert (E : Byte.to_N x = Byte.to_N y) by lia.
  pose proof (Byte.of_to_N x) as Hx. pose proof (Byte.of_to_N y) as Hy.
  rewrite E in Hx. congruence.
Qed.

Lemma memcmp_bytes_zero_iff (a b : list byte) :
  length a = length b ->
  memcmp_bytes a b (length a) = 0 <-> a = b.
Proof.
  revert b. induction a as [|x a IH]; intros [|y b] Hlen; simpl in *;
    try discriminate.
  - tauto.
  - injection Hlen as Hlen.
    destruct (Byte.eqb x y) eqn:E.
    + apply Byte.byte_dec_bl in E. subst y.
      rewrite (IH b Hlen). split; intros H; [subst; auto | now injection H].
    + split; intros H.
      * exfalso. revert H. now apply byte_diff_nonzero.
      * injection H as -> _. apply Byte.eqb_false in E. congruence.
Qed.

(** Compared over their full width, two addresses agree exactly when they
    are equal. *)
Lemma os_memcmp_sizeof (a b : mesh_device_mac_type) :
  (os_memcmp a b sizeof_mac =? 0) = true <-> a = b.
Proof.
  rewrite Z.eqb_eq. unfold os_memcmp.
  change (Z.to_nat sizeof_mac) with (length (mac a)).
  rewrite memcmp_bytes_zero_iff by reflexivity.
  destruct a, b; unfold mac; simpl.
  split; intros H; [injection H; intros; subst; reflexivity | now injection H; intros; subst].
Qed.

Lemma os_memcmp_refl (a : mesh_device_mac_type) :
  (os_memcmp a a sizeof_mac =? 0) = true.
Proof. now apply os_memcmp_sizeof. Qed.

Lemma os_memcmp_neq (a b : mesh_device_mac_type) :
  a <> b -> (os_memcmp a b sizeof_mac =? 0) = false.
Proof.
  intros H. destruct (os_memcmp a b sizeof_mac =? 0) eqn:E; auto.
  now apply os_memcmp_sizeof in E.
Qed.

(** Compared over no bytes at all, any two addresses agree. *)
Lemma os_memcmp_no_bytes (a b : mesh_device_mac_type) : os_memcmp a b 0 = 0.
Proof. reflexivity. Qed.

(** Case analysis on a full-width comparison. *)
Ltac cmp_mac a b :=
  let E := fresh "E" in
  destruct (mac_eq_dec a b) as [E|E];
  [ try (rewrite E in *); rewrite ?os_memcmp_refl in *
  | rewrite ?(os_memcmp_neq _ _ E) in * ].

Lemma snapshot_members (nl : mesh_device_list_type) :
  snapshot (Some nl) = members nl.
Proof.
  unfold snapshot, members, block, mesh_device_list_get.
  destruct (list_ nl) as [b|]; simpl.
  - rewrite orb_false_r. destruct (entries_count nl <=? 1) eqn:E; auto.
    apply Z.leb_le in E. replace (Z.to_nat (entries_count nl - 1)) with O by lia.
    reflexivity.
  - rewrite orb_true_r. now rewrite firstn_nil.
Qed.

Lemma list_search_loop_spec (l : list mesh_device_node_type) (n : nat)
  (m : mesh_device_mac_type) :
  list_search_loop l n m = true <-> In m (addresses (firstn n l)).
Proof.
  revert l. induction n as [|n IH]; intros [|e l]; simpl;
    try (split; [discriminate | tauto]).
  cmp_mac (mac_addr e) m.
  - split; auto.
  - rewrite IH. split; [tauto | intros [H|H]; [congruence | auto]].
Qed.

(** What [mesh_device_list_search] decides once a root is set. *)
Lemma search_spec (nl : mesh_device_list_type) (m : mesh_device_mac_type) :
  1 <= entries_count nl ->
  mesh_device_list_search (Some m) (Some nl) = true <->
  m = mac_addr (root nl) \/ In m (addresses (members nl)).
Proof.
  intros Hec. unfold mesh_device_list_search.
  destruct (entries_count nl <=? 0) eqn:E; [apply Z.leb_le in E; lia|].
  cmp_mac (mac_addr (root nl)) m.
  - split; auto.
  - rewrite list_search_loop_spec. unfold members.
    split; [tauto | intros [H|H]; [congruence | auto]].
Qed.

Lemma search_no_root (nl : mesh_device_list_type) (m : mesh_device_mac_type) :
  entries_count nl <= 0 -> mesh_device_list_search (Some m) (Some nl) = false.
Proof.
  intros H. unfold mesh_device_list_search.
  destruct (entries_count nl <=? 0) eqn:E; auto. apply Z.leb_gt in E. lia.
Qed.

(** ** Setting the root *)

Lemma only_root_views (s : mesh_device_mac_type) :
  mesh_device_root_get (only_root s) = Some (Node s 0) /\
  snapshot (only_root s) = [].
Proof. split; reflexivity. Qed.

(** C4. With a root R set, [mesh_device_root_set] on R returns true and
    leaves the registry as it is; on an address S other than R it releases
    the whole list (root and members) and installs S as the root of an
    empty member list, and returns true. *)
Theorem root_set_same_or_switch :
  forall (os_zalloc_ok : Z -> bool) (nl : mesh_device_list_type),
    1 <= entries_count nl ->
    mesh_device_root_set os_zalloc_ok (Some (mac_addr (root nl))) (Some nl)
      = Done (true, Some nl) /\
    forall s : mesh_device_mac_type,
      s <> mac_addr (root nl) ->
      mesh_device_root_set os_zalloc_ok (Some s) (Some nl)
        = Done (true, only_root s) /\
      mesh_device_root_get (only_root s) = Some (Node s 0) /\
      snapshot (only_root s) = [].
Proof.
  intros ok nl Hec. unfold mesh_device_root_set.
  destruct (entries_count nl <=? 0) eqn:E; [apply Z.leb_le in E; lia|].
  split.
  - rewrite os_memcmp_refl. simpl. now rewrite os_memcmp_refl.
  - intros s Hs.
    rewrite (os_memcmp_neq _ _ (not_eq_sym Hs)). simpl.
    rewrite os_memcmp_refl. repeat split.
Qed.


(** ** Before [mesh_device_list_init] *)

(** C9. On the registry that has not been initialised,
    [mesh_device_root_set] allocates the struct and goes on with the
    result of [mesh_device_list_init] unchecked: when the allocation is
    served it installs the address as the root of an empty member list and
    returns true, when it is refused it reads [node_list->entries_count]
    through the null pointer.  The search, both getters, add and the
    time-stamp update return false, del returns false (true for no
    addresses), and all of them leave the registry uninitialised. *)
Theorem uninitialised_root_set_unchecked :
  forall (os_zalloc_ok : Z -> bool) (now : Z) (fuel : nat)
         (addr : mesh_device_mac_type)
         (node : option mesh_device_mac_type)
         (nodes : option (list mesh_device_mac_type)),
    mesh_device_root_set os_zalloc_ok (Some addr) None
      = (if os_zalloc_ok sizeof_list then Done (true, only_root addr)
         else Crash) /\
    mesh_device_list_search node None = false /\
    mesh_device_list_get None = None /\
    mesh_device_root_get None = None /\
    mesh_device_add os_zalloc_ok nodes None = (false, None) /\
    mesh_device_update_timestamp now nodes None = (false, None) /\
    mesh_device_del os_zalloc_ok fuel nodes None
      = Done (match nodes with Some (_ :: _) => false | _ => true end, None).
Proof.
  intros ok now fuel addr node nodes. repeat split.
  - unfold mesh_device_root_set, mesh_device_list_init.
    destruct (ok sizeof_list); [| reflexivity].
    simpl. now rewrite os_memcmp_refl.
  - now destruct node.
  - now destruct nodes.
  - now destruct nodes.
  - now destruct nodes as [[|n ns]|].
Qed.

(** The heap cannot serve the 16 bytes of the struct: the first
    [mesh_device_root_set] faults. *)
Lemma uninitialised_root_set_unchecked_witness :
  mesh_device_root_set (fun _ => false) (Some mac_R) None = Crash.
Proof.
  exact (proj1 (uninitialised_root_set_unchecked (fun _ => false) 0 0%nat
                  mac_R None None)).
Defined.

Lemma root_set_same_or_switch_witness :
  1 <= entries_count (NodeList 1 (Node zero_mac 0) None) /\
  mesh_device_root_set (fun _ => true) (Some zero_mac) (only_root zero_mac)
    = Done (true, only_root zero_mac).
Proof.
  assert (H : 1 <= entries_count (NodeList 1 (Node zero_mac 0) None))
    by (simpl; lia).
  split; [exact H |].
  exact (proj1 (@root_set_same_or_switch (fun _ => true) _ H)).
Defined.

(** ** Updating time stamps *)

Lemma touched_only_refl (P : mesh_device_mac_type -> Prop)
  (e : mesh_device_node_type) : touched_only P e e.
Proof. split; auto. Qed.

Lemma touched_only_trans (P Q : mesh_device_mac_type -> Prop)
  (e1 e2 e3 : mesh_device_node_type) :
  touched_only P e1 e2 -> touched_only Q e2 e3 ->
  touched_only (fun a => P a \/ Q a) e1 e3.
Proof.
  intros [H1 H1'] [H2 H2']. split; [congruence|].
  intros H. rewrite H2', H1'; auto. rewrite H1. auto.
Qed.

Lemma Forall2_same (A : Type) (R : A -> A -> Prop) (l : list A) :
  (forall x, R x x) -> Forall2 R l l.
Proof. intros H. induction l; constructor; auto. Qed.

Lemma Forall2_compose (A : Type) (R S T : A -> A -> Prop) (l1 l2 l3 : list A) :
  (forall x y z, R x y -> S y z -> T x z) ->
  Forall2 R l1 l2 -> Forall2 S l2 l3 -> Forall2 T l1 l3.
Proof.
  intros H H12. revert l3.
  induction H12; intros l3 H23; inversion H23; subst; constructor; eauto.
Qed.

Lemma Forall2_firstn (A : Type) (R : A -> A -> Prop) (n : nat) (l l' : list A) :
  Forall2 R l l' -> Forall2 R (firstn n l) (firstn n l').
Proof.
  intros H. revert n. induction H; intros [|n]; simpl; constructor; auto.
Qed.

Lemma Forall2_addresses (P : mesh_device_mac_type -> Prop)
  (l l' : list mesh_device_node_type) :
  Forall2 (touched_only P) l l' -> addresses l' = addresses l.
Proof.
  induction 1 as [|e e' l l' [H _] _ IH]; simpl; [reflexivity|].
  now rewrite H, IH.
Qed.

Lemma touch_loop_touched (now : Z) (l : list mesh_device_node_type) (n : nat)
  (m : mesh_device_mac_type) :
  Forall2 (touched_only (eq m)) l (touch_loop now l n m).
Proof.
  revert l. induction n as [|n IH]; intros [|e l]; simpl;
    try (apply Forall2_same; apply touched_only_refl).
  cmp_mac (mac_addr e) m.
  - constructor.
    + split; simpl; [reflexivity | intros H; now destruct H].
    + apply Forall2_same; apply touched_only_refl.
  - constructor; [apply touched_only_refl | apply IH].
Qed.

Lemma frame_refl (P : mesh_device_mac_type -> Prop) (nl : mesh_device_list_type) :
  frame P nl nl.
Proof.
  repeat split; auto. destruct (list_ nl); auto.
  apply Forall2_same; apply touched_only_refl.
Qed.

Lemma frame_trans (P Q : mesh_device_mac_type -> Prop)
  (nl1 nl2 nl3 : mesh_device_list_type) :
  frame P nl1 nl2 -> frame Q nl2 nl3 -> frame (fun a => P a \/ Q a) nl1 nl3.
Proof.
  intros (Hc & Hr & Hl) (Hc' & Hr' & Hl'). split; [congruence|]. split.
  - eapply touched_only_trans; eauto.
  - destruct (list_ nl1), (list_ nl2), (list_ nl3); try tauto.
    eapply Forall2_compose; [| exact Hl | exact Hl'].
    intros x y z. apply touched_only_trans.
Qed.

Lemma frame_weaken (P Q : mesh_device_mac_type -> Prop)
  (nl nl' : mesh_device_list_type) :
  (forall a, P a -> Q a) -> frame P nl nl' -> frame Q nl nl'.
Proof.
  intros HPQ (Hc & [Hr Hr'] & Hl). split; [auto|]. split.
  - split; auto.
  - destruct (list_ nl), (list_ nl'); auto.
    eapply Forall2_impl; [| exact Hl].
    intros a b [H H']. split; auto.
Qed.

Lemma update_timestamp_step_frame (now : Z) (nl : mesh_device_list_type)
  (m : mesh_device_mac_type) :
  frame (eq m) nl (update_timestamp_step now nl m).
Proof.
  unfold update_timestamp_step.
  destruct (mesh_device_list_search (Some m) (Some nl)); [| apply frame_refl].
  assert (Hroot : exists r, touched_only (eq m) (root nl) r /\
            (if os_memcmp (mac_addr (root nl)) m sizeof_mac =? 0
             then set_root (set_timestamp now (root nl)) nl else nl)
            = set_root r nl).
  { cmp_mac (mac_addr (root nl)) m.
    - eexists; split; [| reflexivity].
      split; simpl; [reflexivity | intros H; now destruct H].
    - exists (root nl). split; [apply touched_only_refl | now destruct nl]. }
  destruct Hroot as (r & Hr & ->).
  split; [reflexivity|]. split; [exact Hr|]. simpl.
  destruct (list_ nl); simpl; auto. apply touch_loop_touched.
Qed.

Lemma update_timestamp_fold_frame (now : Z) (ns : list mesh_device_mac_type)
  (nl : mesh_device_list_type) :
  frame (fun a => In a ns) nl (fold_left (update_timestamp_step now) ns nl).
Proof.
  revert nl. induction ns as [|n ns IH]; intros nl; simpl.
  - apply frame_refl.
  - eapply frame_weaken;
      [| eapply frame_trans; [apply update_timestamp_step_frame | apply IH]].
    simpl. intros a [H|H]; auto.
Qed.

Lemma frame_members (P : mesh_device_mac_type -> Prop)
  (nl nl' : mesh_device_list_type) :
  frame P nl nl' -> Forall2 (touched_only P) (members nl) (members nl').
Proof.
  intros (Hc & _ & Hl). unfold members, block. rewrite Hc.
  destruct (list_ nl), (list_ nl'); try tauto.
  - now apply Forall2_firstn.
  - rewrite firstn_nil. constructor.
Qed.

(** C10. [mesh_device_update_timestamp] changes time stamps only, and only
    of entries whose address is among the given ones: the number of
    entries, the address of the root, and the addresses of the members in
    their order stay, and the root and every member whose address is not
    given stay as they are. *)
Theorem update_timestamp_frame :
  forall (now : Z) (nodes : option (list mesh_device_mac_type))
         (node_list : registry),
    let node_list' := snd (mesh_device_update_timestamp now nodes node_list) in
    let given := match nodes with Some ns => ns | None => [] end in
    option_map entries_count node_list' = option_map entries_count node_list /\
    option_map mac_addr (mesh_device_root_get node_list')
      = option_map mac_addr (mesh_device_root_get node_list) /\
    addresses (snapshot node_list') = addresses (snapshot node_list) /\
    Forall2 (fun e e' => ~ In (mac_addr e) given -> e' = e)
      (snapshot node_list) (snapshot node_list') /\
    (forall r r', mesh_device_root_get node_list = Some r ->
                  mesh_device_root_get node_list' = Some r' ->
                  ~ In (mac_addr r) given -> r' = r).
Proof.
  intros now nodes node_list node_list' given.
  assert (H : node_list' = node_list \/
              exists nl nl', node_list = Some nl /\ node_list' = Some nl' /\
                             frame (fun a => In a given) nl nl').
  { subst node_list' given. unfold mesh_device_update_timestamp.
    destruct nodes as [ns|]; [| now left].
    destruct node_list as [nl|]; [| now left].
    destruct (entries_count nl <=? 0); [now left|].
    right. exists nl. eexists.
    split; [reflexivity|]. split; [reflexivity|].
    apply update_timestamp_fold_frame. }
  destruct H as [-> | (nl & nl' & -> & -> & Hf)].
  - repeat split; auto.
    + apply Forall2_same. auto.
    + intros r r' H1 H2 _. congruence.
  - pose proof (frame_members _ _ _ Hf) as Hm.
    destruct Hf as (Hc & [Hr Hr'] & Hl).
    rewrite !snapshot_members. unfold mesh_device_root_get. simpl. rewrite Hc.
    repeat split.
    + destruct (entries_count nl <=? 0); simpl; congruence.
    + eapply Forall2_addresses; eauto.
    + eapply Forall2_impl; [| exact Hm].
      intros [a t] [a' t'] [H H'] Hn. simpl in *. subst a'. f_equal. auto.
    + destruct (entries_count nl <=? 0); [discriminate|].
      intros r r' [= <-] [= <-] Hn.
      destruct (root nl) as [a t], (root nl') as [a' t']. simpl in *.
      subst a'. f_equal. auto.
Qed.

(** ** Deleting: the root and unknown addresses *)

Lemma del_find_absent (l : list mesh_device_node_type) (n : nat)
  (m : mesh_device_mac_type) (idx : nat) :
  ~ In m (addresses (firstn n l)) -> del_find l n m idx = None.
Proof.
  revert l idx. induction n as [|n IH]; intros [|e l] idx H; simpl in *; auto.
  cmp_mac (mac_addr e) m.
  - tauto.
  - apply IH. tauto.
Qed.

Lemma del_entry_absent (nl : mesh_device_list_type) (m : mesh_device_mac_type) :
  ~ In m (addresses (members nl)) -> del_entry nl m = nl.
Proof.
  intros H. unfold del_entry. now rewrite del_find_absent.
Qed.

(** The root test of [mesh_device_del] compares no bytes and never fires. *)
Lemma del_root_test_dead (nl : mesh_device_list_type) (m : mesh_device_mac_type) :
  negb (os_memcmp (mac_addr (root nl)) m (Z.b2z (sizeof_mac =? 0)) =? 0) = false.
Proof. reflexivity. Qed.

(** C1. What the code does on the address of the root: with a root set
    that is not among the members, [mesh_device_del] on the root's address
    returns true and leaves the registry exactly as it was, so that the
    root is still set and the members are still there. *)
Theorem del_root_keeps_registry :
  forall (os_zalloc_ok : Z -> bool) (fuel : nat) (nl : mesh_device_list_type),
    1 <= entries_count nl ->
    ~ In (mac_addr (root nl)) (addresses (members nl)) ->
    mesh_device_del os_zalloc_ok (S (S fuel)) (Some [mac_addr (root nl)]) (Some nl)
      = Done (true, Some nl) /\
    mesh_device_root_get (Some nl) = Some (root nl).
Proof.
  intros ok fuel nl Hec Hroot.
  assert (E : (entries_count nl <=? 0) = false) by (apply Z.leb_gt; lia).
  split.
  - unfold mesh_device_del. simpl length. cbv iota. rewrite E.
    change (Z.of_nat 1 <=? 0) with false. cbv iota.
    unfold del_loop.
    assert (Hs : mesh_device_list_search (Some (mac_addr (root nl))) (Some nl) = true)
      by (apply search_spec; auto).
    rewrite Hs, del_root_test_dead, (del_entry_absent _ _ Hroot). simpl.
    now rewrite Z.eqb_refl.
  - unfold mesh_device_root_get. now rewrite E.
Qed.

Lemma del_root_keeps_registry_witness :
  mesh_device_del (fun _ => true) 2 (Some [zero_mac]) (only_root zero_mac)
    = Done (true, only_root zero_mac) /\
  mesh_device_root_get (only_root zero_mac) = Some (Node zero_mac 0).
Proof.
  apply (@del_root_keeps_registry (fun _ => true) 0 (NodeList 1 (Node zero_mac 0) None)).
  - simpl. lia.
  - simpl. tauto.
Defined.

Lemma del_loop_unknown_spins (fuel : nat) (nl : mesh_device_list_type)
  (a : mesh_device_mac_type) (rest : list mesh_device_mac_type) :
  mesh_device_list_search (Some a) (Some nl) = false ->
  del_loop fuel (a :: rest) nl = Spin.
Proof.
  intros Hs. induction fuel as [|fuel IH]; [reflexivity|].
  cbn [del_loop]. now rewrite Hs.
Qed.

(** C3. What the code does on an address it does not know: with a root
    set, [mesh_device_del] on a list that starts with an address that is
    neither the root nor a member never leaves its loop, whatever the fuel. *)
Theorem del_unknown_address_never_returns :
  forall (os_zalloc_ok : Z -> bool) (fuel : nat) (nl : mesh_device_list_type)
         (a : mesh_device_mac_type) (rest : list mesh_device_mac_type),
    1 <= entries_count nl ->
    a <> mac_addr (root nl) ->
    ~ In a (addresses (members nl)) ->
    mesh_device_del os_zalloc_ok fuel (Some (a :: rest)) (Some nl) = Spin.
Proof.
  intros ok fuel nl a rest Hec Hr Hm.
  assert (Hs : mesh_device_list_search (Some a) (Some nl) = false).
  { destruct (mesh_device_list_search (Some a) (Some nl)) eqn:E; auto.
    apply search_spec in E; tauto. }
  unfold mesh_device_del.
  replace (Z.of_nat (length (a :: rest)) <=? 0) with false
    by (symmetry; apply Z.leb_gt; simpl length; lia).
  replace (entries_count nl <=? 0) with false by (symmetry; apply Z.leb_gt; lia).
  now rewrite del_loop_unknown_spins.
Qed.

Lemma del_unknown_address_never_returns_witness :
  mesh_device_del (fun _ => true) 1000
    (Some [Mac x01 x00 x00 x00 x00 x00]) (only_root zero_mac) = Spin.
Proof.
  apply (@del_unknown_address_never_returns (fun _ => true) 1000
           (NodeList 1 (Node zero_mac 0) None)).
  - simpl. lia.
  - discriminate.
  - simpl. tauto.
Defined.

(** ** Adding nodes *)

Lemma wrap16_small (z : Z) : 0 <= z <= 65535 -> wrap16 z = z.
Proof. intros H. unfold wrap16. apply Z.mod_small. lia. Qed.

Lemma array_upd_app (A : Type) (f : A -> A) (l1 l2 : list A) (x : A) :
  array_upd f (l1 ++ x :: l2) (length l1) = l1 ++ f x :: l2.
Proof. induction l1 as [|y l1 IH]; simpl; [reflexivity | now rewrite IH]. Qed.

Lemma members_prefix (r : mesh_device_node_type)
  (mem slack : list mesh_device_node_type) :
  members (NodeList (1 + Z.of_nat (length mem)) r (Some (mem ++ slack))) = mem.
Proof.
  unfold members, block. cbn [entries_count list_].
  replace (Z.to_nat (1 + Z.of_nat (length mem) - 1)) with (length mem + 0)%nat by lia.
  rewrite firstn_app_2. simpl. apply app_nil_r.
Qed.

Lemma fresh_addresses_ext (p1 p2 nodes : list mesh_device_mac_type) :
  (forall a, In a p1 <-> In a p2) ->
  fresh_addresses p1 nodes = fresh_addresses p2 nodes.
Proof.
  revert p1 p2. induction nodes as [|n rest IH]; intros p1 p2 H; simpl; auto.
  destruct (in_dec mac_eq_dec n p1) as [H1|H1],
           (in_dec mac_eq_dec n p2) as [H2|H2];
    try (apply H in H1; tauto); try (apply H in H2; tauto).
  - now apply IH.
  - f_equal. apply IH. simpl. intros a. rewrite H. tauto.
Qed.

(** The three things the specification says about the appended addresses. *)
Lemma fresh_addresses_in (present nodes : list mesh_device_mac_type)
  (a : mesh_device_mac_type) :
  In a (fresh_addresses present nodes) <-> In a nodes /\ ~ In a present.
Proof.
  revert present. induction nodes as [|n rest IH]; intros present; simpl.
  - tauto.
  - destruct (in_dec mac_eq_dec n present) as [H|H]; simpl; rewrite IH; simpl.
    + split; [tauto|]. intros [[->|Hin] Hn]; tauto.
    + destruct (mac_eq_dec n a) as [->|Hne]; tauto.
Qed.

Lemma fresh_addresses_NoDup (present nodes : list mesh_device_mac_type) :
  NoDup (fresh_addresses present nodes).
Proof.
  revert present. induction nodes as [|n rest IH]; intros present; simpl.
  - constructor.
  - destruct (in_dec mac_eq_dec n present); auto.
    constructor; auto. rewrite fresh_addresses_in. simpl. tauto.
Qed.

Lemma fresh_addresses_shorter (present nodes : list mesh_device_mac_type)
  (unknown : mesh_device_mac_type -> bool) :
  (forall a, unknown a = false -> In a present) ->
  (length (fresh_addresses present nodes) <= length (filter unknown nodes))%nat.
Proof.
  revert present. induction nodes as [|n rest IH]; intros present H; simpl; auto.
  destruct (in_dec mac_eq_dec n present) as [Hin|Hin].
  - specialize (IH present H). destruct (unknown n); simpl; lia.
  - destruct (unknown n) eqn:E; [| apply H in E; tauto].
    simpl. apply le_n_S. apply IH. simpl. auto.
Qed.

Lemma fresh_addresses_nil (present nodes : list mesh_device_mac_type) :
  fresh_addresses present nodes = [] <-> forall a, In a nodes -> In a present.
Proof.
  split.
  - intros H a Ha. destruct (in_dec mac_eq_dec a present) as [|Hn]; auto.
    assert (Hf : In a (fresh_addresses present nodes))
      by (apply fresh_addresses_in; auto).
    rewrite H in Hf. destruct Hf.
  - intros H. destruct (fresh_addresses present nodes) as [|a l] eqn:E; auto.
    assert (Hf : In a (fresh_addresses present nodes)) by (rewrite E; now left).
    apply fresh_addresses_in in Hf. destruct Hf as [Ha Hn]. now apply H in Ha.
Qed.

(** The search, read as a test on [known]. *)
Lemma search_known (nl : mesh_device_list_type) (m : mesh_device_mac_type) :
  1 <= entries_count nl ->
  mesh_device_list_search (Some m) (Some nl) = true <-> In m (known nl).
Proof.
  intros H. rewrite (search_spec nl m H). unfold known. simpl.
  split; intros [E|E]; auto.
Qed.

Lemma search_unknown (nl : mesh_device_list_type) (m : mesh_device_mac_type) :
  1 <= entries_count nl ->
  mesh_device_list_search (Some m) (Some nl) = false <-> ~ In m (known nl).
Proof.
  intros H. rewrite <- (search_known nl m H).
  destruct (mesh_device_list_search (Some m) (Some nl)); split; congruence.
Qed.

(** The first loop of [mesh_device_add], without the wrap-around. *)
Lemma count_new_nodes_spec (nl : mesh_device_list_type)
  (nodes : list mesh_device_mac_type) (c : Z) :
  0 <= c -> c + Z.of_nat (length nodes) <= 65535 ->
  count_new_nodes nl nodes c
  = c + Z.of_nat (length (filter
          (fun n => negb (mesh_device_list_search (Some n) (Some nl))) nodes)).
Proof.
  revert c. induction nodes as [|n rest IH]; intros c H0 H; simpl in *.
  - lia.
  - destruct (negb (mesh_device_list_search (Some n) (Some nl))); simpl length.
    + rewrite wrap16_small by lia. rewrite IH by lia. lia.
    + rewrite IH by lia. lia.
Qed.

Lemma known_prefix (r : mesh_device_node_type)
  (mem slack : list mesh_device_node_type) :
  known (NodeList (1 + Z.of_nat (length mem)) r (Some (mem ++ slack)))
  = mac_addr r :: addresses mem.
Proof. unfold known. now rewrite members_prefix. Qed.

(** One round of the second loop on an address that is present. *)
Lemma add_step_present (nl : mesh_device_list_type) (n : mesh_device_mac_type) :
  1 <= entries_count nl -> In n (known nl) -> add_step nl n = nl.
Proof.
  intros Hec Hin. unfold add_step.
  apply (search_known nl n Hec) in Hin. now rewrite Hin.
Qed.

(** One round of the second loop on an address that is not present, with a
    zero slot behind the entries in use. *)
Lemma add_step_absent (r : mesh_device_node_type)
  (mem slack : list mesh_device_node_type) (n : mesh_device_mac_type) :
  1 + Z.of_nat (length mem) + 1 <= 65535 ->
  ~ In n (mac_addr r :: addresses mem) ->
  add_step (NodeList (1 + Z.of_nat (length mem)) r
              (Some (mem ++ zero_node :: slack))) n
  = NodeList (1 + Z.of_nat (length (mem ++ [new_entry n]))) r
      (Some ((mem ++ [new_entry n]) ++ slack)).
Proof.
  intros Hmax Hn. unfold add_step.
  rewrite <- known_prefix with (slack := zero_node :: slack) in Hn.
  apply search_unknown in Hn; [| cbn [entries_count]; lia]. rewrite Hn.
  unfold set_entries_count, set_list, array_upd_at. cbn [negb entries_count root list_ option_map].
  replace (1 + Z.of_nat (length mem) - 1 <? 0) with false
    by (symmetry; apply Z.ltb_ge; lia).
  replace (Z.to_nat (1 + Z.of_nat (length mem) - 1)) with (length mem) by lia.
  rewrite array_upd_app, wrap16_small by lia.
  rewrite length_app, <- app_assoc. simpl length. simpl app.
  f_equal. lia.
Qed.

(** The second loop of [mesh_device_add] on a block that holds the entries
    in use followed by [s] zero slots, enough for the fresh addresses. *)
Lemma add_fold_spec (nodes : list mesh_device_mac_type) :
  forall (r : mesh_device_node_type) (mem : list mesh_device_node_type) (s : nat),
    let fr := fresh_addresses (mac_addr r :: addresses mem) nodes in
    (length fr <= s)%nat ->
    1 + Z.of_nat (length mem) + Z.of_nat s <= 65535 ->
    fold_left add_step nodes
      (NodeList (1 + Z.of_nat (length mem)) r (Some (mem ++ repeat zero_node s)))
    = NodeList (1 + Z.of_nat (length (mem ++ map new_entry fr))) r
        (Some ((mem ++ map new_entry fr) ++ repeat zero_node (s - length fr))).
Proof.
  induction nodes as [|n rest IH]; intros r mem s fr Hs Hmax; subst fr.
  - simpl. rewrite app_nil_r, Nat.sub_0_r. reflexivity.
  - cbn [fold_left fresh_addresses] in *.
    destruct (in_dec mac_eq_dec n (mac_addr r :: addresses mem)) as [Hin|Hin].
    + rewrite add_step_present.
      * now apply IH.
      * cbn [entries_count]. lia.
      * now rewrite known_prefix.
    + simpl length in Hs. destruct s as [|s]; [lia|].
      cbn [repeat]. rewrite add_step_absent by (auto; lia).
      assert (E : fresh_addresses (n :: mac_addr r :: addresses mem) rest
                  = fresh_addresses (mac_addr r :: addresses (mem ++ [new_entry n])) rest).
      { apply fresh_addresses_ext. intros a. unfold addresses.
        rewrite map_app. simpl. rewrite in_app_iff. simpl. tauto. }
      rewrite E in *.
      rewrite IH; [| lia | rewrite length_app; simpl length; lia].
      cbn [map length]. rewrite <- !app_assoc. simpl app.
      replace (S s - S (length (fresh_addresses
                 (mac_addr r :: addresses (mem ++ [new_entry n])) rest)))%nat
        with (s - length (fresh_addresses
                 (mac_addr r :: addresses (mem ++ [new_entry n])) rest))%nat by lia.
      reflexivity.
Qed.

Lemma members_length (nl : mesh_device_list_type) :
  wf nl -> 1 <= entries_count nl ->
  Z.of_nat (length (members nl)) = entries_count nl - 1.
Proof.
  intros [_ H] Hec. unfold members. rewrite firstn_length_le; lia.
Qed.

Lemma skipn_repeat_more (A : Type) (x : A) (n m : nat) :
  skipn n (repeat x (n + m)) = repeat x m.
Proof.
  rewrite repeat_app, skipn_app, repeat_length, Nat.sub_diag.
  rewrite skipn_all2 by (rewrite repeat_length; lia). reflexivity.
Qed.

(** The fresh block of [mesh_device_add] once the old entries are copied. *)
Lemma add_buffer (nl : mesh_device_list_type) (cnt : nat) :
  wf nl -> 1 <= entries_count nl ->
  match list_ nl with
  | Some old =>
      if 1 <? entries_count nl
      then memcpy_nodes (zalloc_nodes (entries_count nl - 1 + Z.of_nat cnt)) 0
             old (Z.to_nat (entries_count nl - 1))
      else zalloc_nodes (entries_count nl - 1 + Z.of_nat cnt)
  | None => zalloc_nodes (entries_count nl - 1 + Z.of_nat cnt)
  end = members nl ++ repeat zero_node cnt.
Proof.
  intros Hwf Hec. pose proof (members_length nl Hwf Hec) as Hlen.
  destruct Hwf as [_ Hwf]. unfold members, block, zalloc_nodes in *.
  replace (Z.to_nat (entries_count nl - 1 + Z.of_nat cnt))
    with (Z.to_nat (entries_count nl - 1) + cnt)%nat by lia.
  destruct (list_ nl) as [old|].
  - destruct (1 <? entries_count nl) eqn:E.
    + unfold memcpy_nodes. simpl firstn. simpl app.
      rewrite firstn_length_le by lia. simpl plus.
      now rewrite skipn_repeat_more.
    + apply Z.ltb_ge in E. replace (Z.to_nat (entries_count nl - 1)) with O by lia.
      reflexivity.
  - simpl in Hwf. replace (Z.to_nat (entries_count nl - 1)) with O by lia.
    reflexivity.
Qed.

Lemma filter_not_registered_nil (nl : mesh_device_list_type)
  (nodes : list mesh_device_mac_type) :
  1 <= entries_count nl ->
  filter (not_registered nl) nodes = [] <->
  fresh_addresses (known nl) nodes = [].
Proof.
  intros Hec. rewrite fresh_addresses_nil. split.
  - intros H a Ha. apply (search_known nl a Hec).
    destruct (mesh_device_list_search (Some a) (Some nl)) eqn:E; auto.
    assert (Hf : In a (filter (not_registered nl) nodes)).
    { apply filter_In. split; auto. unfold not_registered. now rewrite E. }
    rewrite H in Hf. destruct Hf.
  - intros H. destruct (filter (not_registered nl) nodes) as [|a l] eqn:E; auto.
    assert (Hf : In a (filter (not_registered nl) nodes)) by (rewrite E; now left).
    apply filter_In in Hf. destruct Hf as [Ha Hn].
    apply H, (search_known nl a Hec) in Ha.
    unfold not_registered in Hn. rewrite Ha in Hn. discriminate.
Qed.

Lemma fresh_le_not_registered (nl : mesh_device_list_type)
  (nodes : list mesh_device_mac_type) :
  1 <= entries_count nl ->
  (length (fresh_addresses (known nl) nodes)
   <= length (filter (not_registered nl) nodes))%nat.
Proof.
  intros Hec. apply fresh_addresses_shorter. intros a Ha.
  apply (search_known nl a Hec). unfold not_registered in Ha.
  now destruct (mesh_device_list_search (Some a) (Some nl)).
Qed.

(** What [mesh_device_add] returns and leaves, with a root set: nothing
    changes when every address is present or the allocation fails;
    otherwise the fresh addresses are appended as new entries with a zero
    time stamp.  The counter is assumed not to overflow when the block is
    granted. *)
Lemma add_result (os_zalloc_ok : Z -> bool)
  (nodes : list mesh_device_mac_type) (nl : mesh_device_list_type) :
  let fr := fresh_addresses (known nl) nodes in
  wf nl -> 1 <= entries_count nl ->
  Z.of_nat (length nodes) <= 65535 ->
  (os_zalloc_ok (add_request nl nodes) = true ->
   entries_count nl + Z.of_nat (length (filter (not_registered nl) nodes)) <= 65535) ->
  (fr = [] /\ mesh_device_add os_zalloc_ok (Some nodes) (Some nl) = (true, Some nl)) \/
  (fr <> [] /\ os_zalloc_ok (add_request nl nodes) = false /\
   mesh_device_add os_zalloc_ok (Some nodes) (Some nl) = (false, Some nl)) \/
  (fr <> [] /\ os_zalloc_ok (add_request nl nodes) = true /\
   exists nl',
     mesh_device_add os_zalloc_ok (Some nodes) (Some nl) = (true, Some nl') /\
     wf nl' /\ root nl' = root nl /\
     entries_count nl' = entries_count nl + Z.of_nat (length fr) /\
     members nl' = members nl ++ map new_entry fr).
Proof.
  intros fr Hwf Hec Hcount Hmax. unfold mesh_device_add.
  replace (entries_count nl <? 1) with false by (symmetry; apply Z.ltb_ge; lia).
  destruct (0 <? Z.of_nat (length nodes)) eqn:E0.
  2:{ left. split; auto. subst fr. apply Z.ltb_ge in E0.
      destruct nodes; [reflexivity | simpl length in E0; lia]. }
  assert (Efr : fr = fresh_addresses (known nl) nodes) by reflexivity.
  rewrite count_new_nodes_spec by lia. rewrite Z.add_0_l.
  fold (not_registered nl).
  pose proof (filter_not_registered_nil nl nodes Hec) as Hnil.
  pose proof (fresh_le_not_registered nl nodes Hec) as Hle.
  fold fr in Hle. clearbody fr.
  set (cnt := length (filter (not_registered nl) nodes)) in *.
  destruct (0 <? Z.of_nat cnt) eqn:E1.
  2:{ left. split; auto. rewrite Efr. apply Hnil. apply Z.ltb_ge in E1.
      subst cnt. destruct (filter (not_registered nl) nodes); [reflexivity|].
      simpl length in E1. lia. }
  apply Z.ltb_lt in E1.
  assert (Hfr : fr <> []).
  { intros H. rewrite Efr in H. apply Hnil in H. subst cnt. rewrite H in E1. simpl in E1. lia. }
  right. unfold add_request in *. fold cnt in Hmax |- *.
  destruct (os_zalloc_ok ((entries_count nl - 1 + Z.of_nat cnt) * sizeof_node)) eqn:Eok.
  2:{ left. auto. }
  right. split; auto. split; auto. specialize (Hmax eq_refl).
  rewrite (add_buffer nl cnt Hwf Hec).
  pose proof (members_length nl Hwf Hec) as Hlen.
  replace (set_list (Some (members nl ++ repeat zero_node cnt)) nl)
    with (NodeList (1 + Z.of_nat (length (members nl))) (root nl)
            (Some (members nl ++ repeat zero_node cnt)))
    by (unfold set_list; f_equal; lia).
  pose proof (add_fold_spec nodes (root nl) (members nl) cnt) as Hfold.
  cbv zeta in Hfold.
  change (mac_addr (root nl) :: addresses (members nl)) with (known nl) in Hfold.
  rewrite <- Efr in Hfold. rewrite Hfold by lia.
  eexists. split; [reflexivity|].
  rewrite members_prefix. unfold wf, block. cbn [entries_count root list_].
  rewrite !length_app, length_map, repeat_length.
  repeat split; lia.
Qed.

(** C6 (as amended). With a root set, [mesh_device_add] appends one entry
    for each given address that is not present as root or member, each
    once and in the order given; the new entries carry the time stamp zero
    of the fresh block, not the time of the call; the root and the entries
    that were there stay as they are, time stamps included; the call
    returns true, and when every given address is present it changes
    nothing.  (When the block for the new entries is refused, the call
    returns false and changes nothing.) *)
Theorem add_appends_fresh_addresses :
  forall (os_zalloc_ok : Z -> bool) (nodes : list mesh_device_mac_type)
         (nl : mesh_device_list_type),
    wf nl -> 1 <= entries_count nl ->
    entries_count nl + Z.of_nat (length nodes) <= 65535 ->
    let fr := fresh_addresses (known nl) nodes in
    NoDup fr /\
    (forall a, In a fr <-> In a nodes /\ ~ In a (known nl)) /\
    (fr = [] \/ os_zalloc_ok (add_request nl nodes) = true ->
     exists node_list',
       mesh_device_add os_zalloc_ok (Some nodes) (Some nl) = (true, node_list') /\
       mesh_device_root_get node_list' = mesh_device_root_get (Some nl) /\
       snapshot node_list' = snapshot (Some nl) ++ map new_entry fr /\
       (fr = [] -> node_list' = Some nl)) /\
    (fr <> [] -> os_zalloc_ok (add_request nl nodes) = false ->
     mesh_device_add os_zalloc_ok (Some nodes) (Some nl) = (false, Some nl)).
Proof.
  intros ok nodes nl Hwf Hec Hmax fr.
  split; [apply fresh_addresses_NoDup|].
  split; [intros a; apply fresh_addresses_in|].
  assert (Hcnt : (length (filter (not_registered nl) nodes) <= length nodes)%nat)
    by apply filter_length_le.
  destruct (add_result ok nodes nl Hwf Hec) as
    [[Hfr Hadd] | [(Hfr & Hno & Hadd) | (Hfr & Hyes & nl' & Hadd & Hwf' & Hr & Hc & Hm)]];
    try lia; fold fr in Hfr.
  - split; [| tauto]. intros _.
    exists (Some nl). rewrite Hfr, app_nil_r. auto.
  - split; [| auto]. intros [H | H]; [tauto | congruence].
  - split; [| congruence]. intros _.
    exists (Some nl'). rewrite !snapshot_members.
    unfold mesh_device_root_get. rewrite Hr, Hm.
    replace (entries_count nl' <=? 0) with false by (symmetry; apply Z.leb_gt; lia).
    replace (entries_count nl <=? 0) with false by (symmetry; apply Z.leb_gt; lia).
    repeat split; auto. intros H. now destruct Hfr.
Qed.

Lemma add_appends_fresh_addresses_witness :
  snapshot (snd (mesh_device_add plenty (Some [mac_A; mac_A; mac_R; mac_B])
                   (only_root mac_R)))
  = [new_entry mac_A; new_entry mac_B].
Proof.
  assert (Hwf : wf (NodeList 1 (Node mac_R 0) None))
    by (unfold wf; simpl; lia).
  assert (Hec : 1 <= entries_count (NodeList 1 (Node mac_R 0) None))
    by (simpl; lia).
  assert (Hmax : entries_count (NodeList 1 (Node mac_R 0) None)
                 + Z.of_nat (length [mac_A; mac_A; mac_R; mac_B]) <= 65535)
    by (simpl; lia).
  destruct (add_appends_fresh_addresses plenty [mac_A; mac_A; mac_R; mac_B]
              (NodeList 1 (Node mac_R 0) None) Hwf Hec Hmax)
    as (_ & _ & Happ & _).
  destruct (Happ (or_intror eq_refl)) as (st & Hadd & _ & Hsnap & _).
  unfold only_root. rewrite Hadd. exact Hsnap.
Defined.

(** C6 (as stated) fails: the entry appended for an absent address does
    not carry the time of the call, whatever that time is taken to be,
    since two different times cannot both be its time stamp. *)
Lemma add_entry_without_current_time :
  ~ (forall now : Z,
       snapshot (snd (mesh_device_add plenty (Some [mac_A]) (only_root mac_R)))
       = [Node mac_A now]).
Proof.
  intros H. pose proof (H 1) as H1. vm_compute in H1. discriminate H1.
Qed.

(** ** Uniqueness along sequences of calls *)

Lemma registry_inv_unique (node_list : registry) :
  registry_inv node_list -> unique node_list.
Proof.
  destruct node_list as [nl|]; unfold unique.
  - intros [Hwf Hnd]. rewrite snapshot_members. unfold mesh_device_root_get.
    destruct (entries_count nl <=? 0) eqn:E.
    + apply Z.leb_le in E. unfold members.
      replace (Z.to_nat (entries_count nl - 1)) with O by lia. simpl.
      split; [constructor | discriminate].
    + apply Z.leb_gt in E. assert (Hec : 1 <= entries_count nl) by lia.
      specialize (Hnd Hec). unfold known in Hnd. inversion Hnd; subst.
      split; auto. now intros r [= <-].
  - intros _. simpl. split; [constructor | discriminate].
Qed.

Lemma registry_inv_only_root (s : mesh_device_mac_type) :
  registry_inv (only_root s).
Proof.
  simpl. split.
  - unfold wf. simpl. lia.
  - intros _. unfold known. simpl. constructor; [tauto | constructor].
Qed.

Lemma root_set_inv (os_zalloc_ok : Z -> bool) (a : mesh_device_mac_type)
  (node_list : registry) :
  os_zalloc_ok sizeof_list = true ->
  registry_inv node_list ->
  exists node_list',
    mesh_device_root_set os_zalloc_ok (Some a) node_list = Done (true, node_list')
    /\ registry_inv node_list'.
Proof.
  intros Hok Hinv. destruct node_list as [nl|].
  - unfold mesh_device_root_set.
    destruct (entries_count nl <=? 0) eqn:E.
    + exists (only_root a). simpl. rewrite os_memcmp_refl.
      split; [reflexivity | apply registry_inv_only_root].
    + apply Z.leb_gt in E.
      destruct (mac_eq_dec (mac_addr (root nl)) a) as [Heq|Hne].
      * exists (Some nl). rewrite <- Heq, os_memcmp_refl. simpl.
        rewrite os_memcmp_refl. auto.
      * exists (only_root a). rewrite (os_memcmp_neq _ _ Hne). simpl.
        rewrite os_memcmp_refl.
        split; [reflexivity | apply registry_inv_only_root].
  - exists (only_root a).
    unfold mesh_device_root_set, mesh_device_list_init. rewrite Hok. simpl.
    rewrite os_memcmp_refl. split; [reflexivity | apply registry_inv_only_root].
Qed.

Lemma add_inv (os_zalloc_ok : Z -> bool) (nodes : list mesh_device_mac_type)
  (node_list : registry) :
  (forall n, os_zalloc_ok n = true -> n < 655350) ->
  Z.of_nat (length nodes) <= 65535 ->
  registry_inv node_list ->
  registry_inv (snd (mesh_device_add os_zalloc_ok (Some nodes) node_list)).
Proof.
  intros Hheap Hcount Hinv. destruct node_list as [nl|]; [| exact Hinv].
  destruct (Z_lt_le_dec (entries_count nl) 1) as [Hec|Hec].
  - unfold mesh_device_add.
    replace (entries_count nl <? 1) with true by (symmetry; apply Z.ltb_lt; lia).
    exact Hinv.
  - destruct Hinv as [Hwf Hnd]. specialize (Hnd Hec).
    destruct (add_result os_zalloc_ok nodes nl Hwf Hec Hcount) as
      [[_ ->] | [(_ & _ & ->) | (_ & _ & nl' & -> & Hwf' & Hr & Hc & Hm)]];
      try (simpl; auto; fail).
    + intros Hok. apply Hheap in Hok. unfold add_request, sizeof_node in Hok. lia.
    + simpl. split; [exact Hwf'|]. intros _.
      unfold known in *. rewrite Hr, Hm. unfold addresses. rewrite map_app, map_map.
      simpl. rewrite map_id. rewrite app_comm_cons.
      apply NoDup_app; auto.
      * apply fresh_addresses_NoDup.
      * intros a Ha Hf. apply fresh_addresses_in in Hf. unfold known in Hf. tauto.
Qed.

Lemma run_inv (os_zalloc_ok : Z -> bool) (calls : list registry_call) :
  os_zalloc_ok sizeof_list = true ->
  (forall n, os_zalloc_ok n = true -> n < 655350) ->
  Forall call_fits calls ->
  forall node_list,
    registry_inv node_list ->
    exists node_list',
      run os_zalloc_ok calls node_list = Done node_list' /\
      registry_inv node_list'.
Proof.
  intros Hok Hheap Hfits.
  induction Hfits as [|c rest Hc _ IH]; intros node_list Hinv; cbn [run].
  - eauto.
  - destruct c as [nodes | addr]; unfold call.
    + cbn [bind]. apply IH. now apply add_inv.
    + destruct (root_set_inv os_zalloc_ok addr node_list Hok Hinv)
        as (st & -> & Hst). cbn [bind snd]. now apply IH.
Qed.

(** C2. Every sequence of calls of [mesh_device_add] and
    [mesh_device_root_set] from the empty registry (not yet initialised, or
    initialised and empty) runs to the end and leaves a registry in which
    no address is both the root and a member and no address is a member
    twice.  The struct is allocated, the counts are [uint16_t] values, and
    the heap does not grant a block for 65535 nodes. *)
Theorem add_root_set_keep_unique :
  forall (os_zalloc_ok : Z -> bool) (calls : list registry_call)
         (start : registry),
    start = None \/ start = Some zero_list ->
    os_zalloc_ok sizeof_list = true ->
    (forall n, os_zalloc_ok n = true -> n < 655350) ->
    Forall call_fits calls ->
    exists node_list,
      run os_zalloc_ok calls start = Done node_list /\ unique node_list.
Proof.
  intros ok calls start Hstart Hok Hheap Hfits.
  assert (Hinv : registry_inv start).
  { destruct Hstart as [-> | ->]; simpl; auto.
    split; [unfold wf; simpl; lia | simpl; lia]. }
  destruct (run_inv ok calls Hok Hheap Hfits start Hinv) as (st & Hrun & Hst).
  exists st. split; [exact Hrun | now apply registry_inv_unique].
Qed.

Lemma device_heap_bound (n : Z) : device_heap n = true -> n < 655350.
Proof. unfold device_heap. apply Z.ltb_lt. Qed.

Lemma add_root_set_keep_unique_witness :
  exists node_list,
    run device_heap
      [Call_add [mac_A]; Call_root_set mac_R; Call_add [mac_A; mac_R; mac_A];
       Call_root_set mac_B; Call_add [mac_C; mac_A; mac_C]] None
    = Done node_list /\ unique node_list.
Proof.
  apply add_root_set_keep_unique.
  - now left.
  - reflexivity.
  - exact device_heap_bound.
  - repeat constructor; simpl; lia.
Defined.

(** ** Deleting a member *)

Lemma firstn_exact {A : Type} (l1 l2 : list A) :
  firstn (length l1) (l1 ++ l2) = l1.
Proof.
  rewrite <- (Nat.add_0_r (length l1)), firstn_app_2. simpl. apply app_nil_r.
Qed.

Lemma skipn_exact {A : Type} (l1 l2 : list A) :
  skipn (length l1) (l1 ++ l2) = l2.
Proof.
  rewrite skipn_app, skipn_all, Nat.sub_diag. reflexivity.
Qed.

Lemma del_find_first (pre : list mesh_device_node_type) :
  forall (l : list mesh_device_node_type) (n : nat) (m : mesh_device_mac_type)
         (idx : nat) (e : mesh_device_node_type)
         (post : list mesh_device_node_type),
    firstn n l = pre ++ e :: post ->
    mac_addr e = m ->
    ~ In m (addresses pre) ->
    del_find l n m idx = Some (idx + length pre)%nat.
Proof.
  induction pre as [|p pre IH]; intros l n m idx e post Hl He Hn;
    destruct n as [|n]; destruct l as [|x l]; simpl in Hl; try discriminate;
    injection Hl as -> Hl; simpl.
  - rewrite He, os_memcmp_refl. f_equal. lia.
  - simpl in Hn. rewrite os_memcmp_neq by tauto.
    rewrite (IH l n m (S idx) e post) by tauto. f_equal. lia.
Qed.

(** The [for] loop of [mesh_device_del] on the address of a member: the
    entry leaves, the ones behind it move up, the block keeps its size. *)
Lemma del_entry_member (ec : Z) (r e : mesh_device_node_type)
  (pre post slack : list mesh_device_node_type) :
  ec - 1 = Z.of_nat (length pre) + 1 + Z.of_nat (length post) ->
  ec <= 65535 ->
  ~ In (mac_addr e) (addresses pre) ->
  exists tail,
    del_entry (NodeList ec r (Some (pre ++ e :: post ++ slack))) (mac_addr e)
    = NodeList (ec - 1) r (Some (pre ++ post ++ tail)) /\
    length tail = S (length slack).
Proof.
  intros Hec Hmax Hn. unfold del_entry, block. cbn [entries_count list_ root].
  rewrite (del_find_first pre _ _ _ 0%nat e post); auto.
  2:{ replace (Z.to_nat (ec - 1)) with (length (pre ++ e :: post))
        by (rewrite length_app; simpl length; lia).
      replace (pre ++ e :: post ++ slack) with ((pre ++ e :: post) ++ slack)
        by (rewrite <- app_assoc; reflexivity).
      apply firstn_exact. }
  simpl plus. unfold set_entries_count, set_list.
  cbn [entries_count list_ root option_map].
  rewrite wrap16_small by lia.
  destruct (Z.of_nat (length pre) <? ec - 2) eqn:E.
  - exists (skipn (length pre + length post) (pre ++ e :: post ++ slack)).
    split.
    + f_equal. f_equal. unfold memcpy_nodes.
      rewrite firstn_exact.
      replace (skipn (S (length pre)) (pre ++ e :: post ++ slack))
        with (post ++ slack).
      2:{ replace (pre ++ e :: post ++ slack) with ((pre ++ [e]) ++ post ++ slack)
            by (rewrite <- app_assoc; reflexivity).
          replace (S (length pre)) with (length (pre ++ [e]))
            by (rewrite length_app; simpl; lia).
          now rewrite skipn_exact. }
      replace (Z.to_nat (ec - 1 - (Z.of_nat (length pre) + 1))) with (length post)
        by lia.
      now rewrite firstn_exact.
    + rewrite length_skipn, !length_app. simpl length. rewrite length_app. lia.
  - apply Z.ltb_ge in E. assert (Hp : length post = O) by lia.
    destruct post; [| discriminate]. simpl app.
    exists (e :: slack). split; reflexivity.
Qed.

(** ** The time-out sweep *)

(** [mesh_device_del] on the address of one member, with what it returns:
    false when the smaller block is refused, true otherwise; the count
    goes down in both cases. *)
Lemma del_member_result (os_zalloc_ok : Z -> bool) (fuel : nat)
  (nl : mesh_device_list_type) (e : mesh_device_node_type)
  (pre post : list mesh_device_node_type) :
  wf nl ->
  members nl = pre ++ e :: post ->
  ~ In (mac_addr e) (addresses pre) ->
  exists nl',
    mesh_device_del os_zalloc_ok (S (S fuel)) (Some [mac_addr e]) (Some nl)
      = Done (if 1 <? entries_count nl - 1
              then os_zalloc_ok ((entries_count nl - 1 - 1) * sizeof_node)
              else true,
              Some nl') /\
    wf nl' /\ members nl' = pre ++ post /\
    mesh_device_root_get (Some nl') = mesh_device_root_get (Some nl) /\
    entries_count nl' = entries_count nl - 1.
Proof.
  intros Hwf Hmem Hn.
  assert (Hlen : length (members nl) = S (length pre + length post))
    by (rewrite Hmem, length_app; simpl; lia).
  assert (Hec : 2 <= entries_count nl).
  { unfold members in Hlen. pose proof (firstn_le_length
      (Z.to_nat (entries_count nl - 1)) (block nl)). lia. }
  pose proof (members_length nl Hwf ltac:(lia)) as Hml.
  destruct Hwf as [Hrange Hblock].
  assert (Hb : block nl = pre ++ e :: post ++ skipn (Z.to_nat (entries_count nl - 1)) (block nl)).
  { rewrite <- (firstn_skipn (Z.to_nat (entries_count nl - 1)) (block nl)) at 1.
    fold (members nl). rewrite Hmem, <- app_assoc. reflexivity. }
  set (slack := skipn (Z.to_nat (entries_count nl - 1)) (block nl)) in *.
  clearbody slack.
  destruct nl as [ec r l]. cbn [entries_count root] in *.
  unfold block in Hb. cbn [list_] in Hb.
  destruct l as [bl|]; [| destruct pre; discriminate Hb]. subst bl.
  assert (Hsum : ec - 1 = Z.of_nat (length pre) + 1 + Z.of_nat (length post))
    by lia.
  destruct (del_entry_member ec r e pre post slack) as (tail & Hdel & Htail);
    auto; try lia.
  assert (Hs : mesh_device_list_search (Some (mac_addr e))
                 (Some (NodeList ec r (Some (pre ++ e :: post ++ slack)))) = true).
  { apply search_spec; [cbn [entries_count]; lia|]. right.
    rewrite Hmem. unfold addresses. rewrite map_app, in_app_iff. right. now left. }
  unfold mesh_device_del. simpl length. change (Z.of_nat 1 <=? 0) with false.
  cbn iota. cbn [entries_count].
  replace (ec <=? 0) with false by (symmetry; apply Z.leb_gt; lia).
  cbn [del_loop]. rewrite Hs, del_root_test_dead, Hdel.
  cbn [bind entries_count].
  replace (ec - 1 =? ec) with false by (symmetry; apply Z.eqb_neq; lia).
  cbn [negb].
  assert (Hm' : forall t, members (NodeList (ec - 1) r (Some (pre ++ post ++ t)))
                          = pre ++ post).
  { intros t.
    replace (ec - 1) with (1 + Z.of_nat (length (pre ++ post)))
      by (rewrite length_app; lia).
    rewrite app_assoc. apply members_prefix. }
  assert (Hroot : forall l', mesh_device_root_get (Some (NodeList (ec - 1) r l'))
                  = mesh_device_root_get (Some (NodeList ec r (Some (pre ++ e :: post ++ slack))))).
  { intros l'. unfold mesh_device_root_get. cbn [entries_count root].
    replace (ec - 1 <=? 0) with false by (symmetry; apply Z.leb_gt; lia).
    replace (ec <=? 0) with false by (symmetry; apply Z.leb_gt; lia).
    reflexivity. }
  destruct (1 <? ec - 1) eqn:E1.
  - destruct (os_zalloc_ok ((ec - 1 - 1) * sizeof_node)).
    + eexists. split; [reflexivity|].
      unfold set_list, block. cbn [entries_count root list_].
      unfold memcpy_nodes, zalloc_nodes. simpl firstn. simpl app. simpl plus.
      assert (Hf : firstn (Z.to_nat (ec - 1 - 1)) (pre ++ post ++ tail) = pre ++ post).
      { replace (Z.to_nat (ec - 1 - 1)) with (length (pre ++ post))
          by (rewrite length_app; lia).
        rewrite app_assoc. apply firstn_exact. }
      rewrite Hf.
      rewrite skipn_all2 by (rewrite repeat_length, length_app; lia).
      rewrite app_nil_r.
      split; [| split; [| split; [apply Hroot | reflexivity]]].
      * unfold wf, block. cbn [entries_count list_]. rewrite length_app. lia.
      * rewrite <- (app_nil_r (pre ++ post)) at 1.
        replace (ec - 1) with (1 + Z.of_nat (length (pre ++ post)))
          by (rewrite length_app; lia).
        apply members_prefix.
    + eexists. split; [reflexivity|].
      split; [| split; [apply Hm' | split; [apply Hroot | reflexivity]]].
      unfold wf, block. cbn [entries_count list_].
      rewrite !length_app. lia.
  - apply Z.ltb_ge in E1. assert (ec = 2) by lia. subst ec.
    eexists. split; [reflexivity|].
    unfold set_list. cbn [entries_count root list_].
    split; [| split; [| split; [apply Hroot | reflexivity]]].
    + unfold wf, block. simpl. lia.
    + destruct pre; [| simpl length in Hsum; lia].
      destruct post; [| simpl length in Hsum; lia]. reflexivity.
Qed.

(** Without the fuel for one round and the exit, the model of
    [mesh_device_del] on a registered address has not returned. *)
Lemma del_short_of_fuel (os_zalloc_ok : Z -> bool) (fuel : nat)
  (nl : mesh_device_list_type) (a : mesh_device_mac_type) :
  (fuel < 2)%nat -> 1 <= entries_count nl ->
  mesh_device_list_search (Some a) (Some nl) = true ->
  mesh_device_del os_zalloc_ok fuel (Some [a]) (Some nl) = Spin.
Proof.
  intros Hfuel Hec Hs. unfold mesh_device_del. simpl length.
  change (Z.of_nat 1 <=? 0) with false. cbn iota.
  replace (entries_count nl <=? 0) with false by (symmetry; apply Z.leb_gt; lia).
  destruct fuel as [|[|fuel]]; [reflexivity | | lia].
  cbn [del_loop]. now rewrite Hs, del_root_test_dead.
Qed.

Lemma del_unknown_spins (os_zalloc_ok : Z -> bool) (fuel : nat)
  (nl : mesh_device_list_type) (a : mesh_device_mac_type) :
  1 <= entries_count nl -> ~ In a (known nl) ->
  mesh_device_del os_zalloc_ok fuel (Some [a]) (Some nl) = Spin.
Proof.
  intros Hec Hn.
  assert (Hs : mesh_device_list_search (Some a) (Some nl) = false).
  { destruct (mesh_device_list_search (Some a) (Some nl)) eqn:E; auto.
    apply search_known in E; tauto. }
  unfold mesh_device_del. simpl length.
  change (Z.of_nat 1 <=? 0) with false. cbn iota.
  replace (entries_count nl <=? 0) with false by (symmetry; apply Z.leb_gt; lia).
  now rewrite del_loop_unknown_spins.
Qed.

(** While the pointer is live, the sweep reads the members. *)
Lemma read_entry_member (freed_read : nat -> mesh_device_node_type)
  (nl : mesh_device_list_type) (pre post : list mesh_device_node_type)
  (e : mesh_device_node_type) :
  members nl = pre ++ e :: post ->
  read_entry freed_read (Some nl) (length pre) = e.
Proof.
  intros Hmem. unfold read_entry.
  rewrite <- (firstn_skipn (Z.to_nat (entries_count nl - 1)) (block nl)).
  fold (members nl). rewrite Hmem, <- app_assoc.
  rewrite app_nth2, Nat.sub_diag by lia. reflexivity.
Qed.

Section Sweep.

Variable os_zalloc_ok : Z -> bool.
Variable now : Z.
Variable freed_read : nat -> mesh_device_node_type.
Variable threshold : Z.

(** The entries that are not timed out are passed over. *)
Lemma timeout_loop_passes (fuel : nat) (post : list mesh_device_node_type) :
  forall (nl : mesh_device_list_type)
         (pre rest : list mesh_device_node_type),
    members nl = pre ++ post ++ rest ->
    Forall (fun e => timed_out now threshold e = false) post ->
    timeout_loop os_zalloc_ok now freed_read threshold fuel false
      (length pre + length post) (Some nl)
    = timeout_loop os_zalloc_ok now freed_read threshold fuel false
        (length pre) (Some nl).
Proof.
  induction post as [|x post IH] using rev_ind; intros nl pre rest Hmem Hfresh.
  - simpl. now rewrite Nat.add_0_r.
  - apply Forall_app in Hfresh. destruct Hfresh as [Hpost Hx].
    inversion Hx as [|y l Hy _]; subst.
    rewrite length_app. cbn [length].
    replace (length pre + (length post + 1))%nat
      with (S (length (pre ++ post))) by (rewrite length_app; lia).
    cbn [timeout_loop].
    rewrite (read_entry_member freed_read nl (pre ++ post) rest x)
      by (rewrite Hmem, <- !app_assoc; reflexivity).
    rewrite Hy, length_app. apply (IH nl pre ([x] ++ rest)); [| exact Hpost].
    rewrite Hmem, <- !app_assoc. reflexivity.
Qed.

(** The sweep up to the first deletion: the members behind the last
    timed-out one are passed over, that one is deleted, and the block the
    pointer of the sweep points to is freed unless the smaller block is
    refused. *)
Lemma delete_timed_out_first_deletion (fuel : nat)
  (nl : mesh_device_list_type)
  (pre post : list mesh_device_node_type) (e : mesh_device_node_type) :
  registry_inv (Some nl) ->
  snapshot (Some nl) = pre ++ e :: post ->
  timed_out now threshold e = true ->
  Forall (fun x => timed_out now threshold x = false) post ->
  (2 <= fuel)%nat ->
  exists nl',
    delete_timed_out os_zalloc_ok now freed_read threshold fuel (Some nl)
    = timeout_loop os_zalloc_ok now freed_read threshold fuel
        (if 1 <? entries_count nl - 1
         then os_zalloc_ok ((entries_count nl - 1 - 1) * sizeof_node)
         else true)
        (length pre) (Some nl') /\
    registry_inv (Some nl') /\ snapshot (Some nl') = pre ++ post /\
    mesh_device_root_get (Some nl') = mesh_device_root_get (Some nl) /\
    entries_count nl' = entries_count nl - 1.
Proof.
  intros [Hwf Hnd] Hsnap Hstale Hfresh Hfuel. rewrite snapshot_members in Hsnap.
  assert (Hlen : length (members nl) = S (length pre + length post))
    by (rewrite Hsnap, length_app; simpl; lia).
  assert (Hec : 2 <= entries_count nl).
  { unfold members in Hlen. pose proof (firstn_le_length
      (Z.to_nat (entries_count nl - 1)) (block nl)). lia. }
  pose proof (members_length nl Hwf ltac:(lia)) as Hml.
  specialize (Hnd ltac:(lia)). unfold known in Hnd.
  assert (Hpre : ~ In (mac_addr e) (addresses pre)).
  { inversion Hnd as [|x l _ Hl]; subst. rewrite Hsnap in Hl.
    unfold addresses in *. rewrite map_app in Hl. simpl in Hl.
    apply NoDup_remove_2 in Hl. rewrite in_app_iff in Hl. tauto. }
  destruct fuel as [|[|fuel']]; try lia.
  destruct (del_member_result os_zalloc_ok fuel' nl e pre post Hwf Hsnap Hpre)
    as (nl' & Hdel & Hwf' & Hm' & Hr' & Hc').
  exists nl'. split; [| split; [| split; [| split]]]; auto.
  - unfold delete_timed_out, mesh_device_list_get.
    replace (entries_count nl <=? 1) with false
      by (symmetry; apply Z.leb_gt; lia).
    destruct (list_ nl) as [b|] eqn:Eb.
    2:{ exfalso. unfold members, block in Hsnap. rewrite Eb, firstn_nil in Hsnap.
        destruct pre; discriminate. }
    cbn [orb].
    replace (Z.to_nat (entries_count nl - 1))
      with (length (pre ++ [e]) + length post)%nat
      by (rewrite length_app; simpl; lia).
    rewrite (timeout_loop_passes (S (S fuel')) post nl (pre ++ [e]) [])
      by (rewrite ?app_nil_r, <- ?app_assoc; auto).
    rewrite length_app. cbn [length].
    replace (length pre + 1)%nat with (S (length pre)) by lia.
    cbn [timeout_loop].
    rewrite (read_entry_member freed_read nl pre post e Hsnap), Hstale, Hdel.
    cbn [bind snd orb]. f_equal.
    unfold del_freed_list. cbn [fst snd]. rewrite Hc'.
    replace (entries_count nl - 1 =? entries_count nl) with false
      by (symmetry; apply Z.eqb_neq; lia).
    cbn [negb]. apply andb_true_r.
  - split; [exact Hwf'|]. intros _.
    assert (Hroot : root nl' = root nl).
    { unfold mesh_device_root_get in Hr'.
      replace (entries_count nl <=? 0) with false in Hr'
        by (symmetry; apply Z.leb_gt; lia).
      destruct (entries_count nl' <=? 0); congruence. }
    unfold known. rewrite Hroot, Hm'.
    rewrite Hsnap in Hnd. unfold addresses in *.
    rewrite map_app in *. cbn [map] in Hnd.
    inversion Hnd as [|x l Hx Hl]; subst. constructor.
    + intros Hin. apply Hx. rewrite in_app_iff in *. simpl. tauto.
    + now apply NoDup_remove_1 in Hl.
  - now rewrite snapshot_members.
Qed.



End Sweep.

(** C5. What the sweep does when a timed-out member has another member
    in front of it: it deletes the timed-out one, [mesh_device_del] frees
    the block, and the sweep reads the next entry through the pointer
    [mesh_device_list_get] gave it, which points into the freed block.
    What happens then is decided by what the heap holds there and not by
    the registry.  When the entry read looks timed out and carries an
    address that is not registered, [mesh_device_del] is called on it and
    never returns, so neither does the sweep. *)
Theorem sweep_reads_freed_block :
  forall (os_zalloc_ok : Z -> bool) (now threshold : Z)
         (freed_read : nat -> mesh_device_node_type) (fuel : nat)
         (nl : mesh_device_list_type)
         (pre post : list mesh_device_node_type)
         (p e : mesh_device_node_type),
    registry_inv (Some nl) ->
    snapshot (Some nl) = (pre ++ [p]) ++ e :: post ->
    timed_out now threshold e = true ->
    Forall (fun x => timed_out now threshold x = false) post ->
    os_zalloc_ok ((entries_count nl - 1 - 1) * sizeof_node) = true ->
    timed_out now threshold (freed_read (length pre)) = true ->
    ~ In (mac_addr (freed_read (length pre)))
         (mac_addr (root nl) :: addresses (pre ++ [p] ++ post)) ->
    delete_timed_out os_zalloc_ok now freed_read threshold fuel (Some nl) = Spin.
Proof.
  intros ok now th freed_read fuel nl pre post p e Hinv Hsnap Hstale Hfresh Hok
         Hread Hunknown.
  assert (Hmem : members nl = (pre ++ [p]) ++ e :: post)
    by (now rewrite <- snapshot_members).
  assert (Hlen : length (members nl) = S (S (length pre + length post)))
    by (rewrite Hmem, !length_app; simpl; lia).
  assert (Hec : 3 <= entries_count nl).
  { unfold members in Hlen. pose proof (firstn_le_length
      (Z.to_nat (entries_count nl - 1)) (block nl)). lia. }
  destruct (le_lt_dec 2 fuel) as [Hfuel | Hfuel].
  - destruct (delete_timed_out_first_deletion ok now freed_read th fuel nl
                (pre ++ [p]) post e Hinv Hsnap Hstale Hfresh Hfuel)
      as (nl' & -> & [Hwf' _] & Hsnap' & Hr' & Hc').
    replace (1 <? entries_count nl - 1) with true
      by (symmetry; apply Z.ltb_lt; lia).
    rewrite Hok, length_app. cbn [length].
    replace (length pre + 1)%nat with (S (length pre)) by lia.
    cbn [timeout_loop]. rewrite Hread.
    rewrite del_unknown_spins; [reflexivity | lia |].
    assert (Hroot : root nl' = root nl).
    { unfold mesh_device_root_get in Hr'.
      replace (entries_count nl <=? 0) with false in Hr'
        by (symmetry; apply Z.leb_gt; lia).
      destruct (entries_count nl' <=? 0); congruence. }
    unfold known. rewrite Hroot, <- snapshot_members, Hsnap', <- app_assoc.
    exact Hunknown.
  - unfold delete_timed_out, mesh_device_list_get.
    replace (entries_count nl <=? 1) with false
      by (symmetry; apply Z.leb_gt; lia).
    destruct (list_ nl) as [b|] eqn:Eb.
    2:{ exfalso. unfold members, block in Hmem. rewrite Eb, firstn_nil in Hmem.
        destruct pre; discriminate. }
    cbn [orb]. pose proof (members_length nl (proj1 Hinv) ltac:(lia)) as Hml.
    replace (Z.to_nat (entries_count nl - 1))
      with (length ((pre ++ [p]) ++ [e]) + length post)%nat
      by (rewrite !length_app; simpl; lia).
    rewrite (timeout_loop_passes ok now freed_read th fuel post nl
               ((pre ++ [p]) ++ [e]) [])
      by (rewrite ?app_nil_r, <- ?app_assoc; auto;
          rewrite Hmem, <- ?app_assoc; reflexivity).
    rewrite length_app. cbn [length].
    replace (length (pre ++ [p]) + 1)%nat with (S (length (pre ++ [p]))) by lia.
    cbn [timeout_loop].
    rewrite (read_entry_member freed_read nl (pre ++ [p]) post e Hmem), Hstale.
    rewrite del_short_of_fuel; [reflexivity | exact Hfuel | lia |].
    apply search_spec; [lia|]. right. rewrite Hmem. unfold addresses.
    rewrite map_app, in_app_iff. right. now left.
Qed.

(** Root R with the members A, seen a second ago, and B, last seen at 0,
    the clock at 40 s and the threshold of 30000 ms; the freed block reads
    as zero. *)
Lemma sweep_reads_freed_block_witness :
  delete_timed_out plenty 40000000 cleared SUB_NODE_TIMEOUT_THRESHOLD 5
    (Some (NodeList 3 (Node mac_R 0)
             (Some [Node mac_A 39000000; Node mac_B 0])))
  = Spin.
Proof.
  apply (sweep_reads_freed_block plenty 40000000 SUB_NODE_TIMEOUT_THRESHOLD
           cleared 5
           (NodeList 3 (Node mac_R 0) (Some [Node mac_A 39000000; Node mac_B 0]))
           [] [] (Node mac_A 39000000) (Node mac_B 0)).
  - split.
    + unfold wf. simpl. lia.
    + intros _. unfold known. simpl.
      repeat constructor; simpl; intuition discriminate.
  - reflexivity.
  - reflexivity.
  - constructor.
  - reflexivity.
  - reflexivity.
  - simpl. intuition discriminate.
Defined.

(** ** The packet parser *)

Section Parser.

Variable mesh_header_format : Type.
Variable espconn_mesh_get_usr_data_proto : mesh_header_format -> option Z.
Variable espconn_mesh_get_usr_data :
  mesh_header_format -> option (mesh_header_format * Z).

Lemma parser_scan_absent (table : list (mesh_parser_protocol_type mesh_header_format))
  (idx proto : Z) (header usr_data : mesh_header_format) (usr_data_len : Z)
  (node_list : registry) :
  (forall e, In e table -> protocol e <> proto) ->
  parser_scan table idx proto header usr_data usr_data_len node_list
  = (idx + Z.of_nat (length table), [], Done node_list).
Proof.
  revert idx. induction table as [|e rest IH]; intros idx H;
    cbn [parser_scan length].
  - now rewrite Z.add_0_r.
  - replace (protocol e =? proto) with false
      by (symmetry; apply Z.eqb_neq; apply H; now left).
    rewrite IH by (intros x Hx; apply H; now right).
    rewrite Nat2Z.inj_succ. do 2 f_equal. lia.
Qed.

Lemma parser_scan_null_handler (pre : list (mesh_parser_protocol_type mesh_header_format)) :
  forall (e : mesh_parser_protocol_type mesh_header_format)
         (post : list (mesh_parser_protocol_type mesh_header_format))
         (idx proto : Z) (header usr_data : mesh_header_format)
         (usr_data_len : Z) (node_list : registry),
    (forall x, In x pre -> protocol x <> proto) ->
    protocol e = proto -> handler e = None ->
    parser_scan (pre ++ e :: post) idx proto header usr_data usr_data_len node_list
    = (idx + Z.of_nat (length pre), [No_handler_function_available], Done node_list).
Proof.
  induction pre as [|x pre IH]; intros e post idx proto header usr_data len st Hpre He Hh; simpl app.
  - cbn [parser_scan length]. rewrite He, Z.eqb_refl, Hh. now rewrite Z.add_0_r.
  - cbn [parser_scan length].
    replace (protocol x =? proto) with false
      by (symmetry; apply Z.eqb_neq; apply Hpre; now left).
    rewrite IH; auto.
    + rewrite Nat2Z.inj_succ. do 2 f_equal. lia.
    + intros y Hy. apply Hpre. now right.
Qed.

(** C8. For a message whose protocol resolves to an identifier that no
    entry of the table carries, and for one whose first matching entry has
    a null handler, [mesh_packet_parser] invokes no handler and leaves the
    registry as it is: it prints the condition and returns. *)
Theorem parser_drops_unhandled_protocol :
  forall (table : list (mesh_parser_protocol_type mesh_header_format))
         (header : mesh_header_format) (len proto : Z) (node_list : registry),
    0 < len ->
    espconn_mesh_get_usr_data_proto header = Some proto ->
    ((forall e, In e table -> protocol e <> proto) ->
     mesh_packet_parser espconn_mesh_get_usr_data_proto espconn_mesh_get_usr_data
       table (Some tt) (Some header) len node_list
     = ([Protocol_is_not_supported], Done node_list)) /\
    (forall pre e post,
       table = pre ++ e :: post ->
       (forall x, In x pre -> protocol x <> proto) ->
       protocol e = proto -> handler e = None ->
       mesh_packet_parser espconn_mesh_get_usr_data_proto espconn_mesh_get_usr_data
         table (Some tt) (Some header) len node_list
       = ([No_handler_function_available], Done node_list)).
Proof.
  intros table header len proto st Hlen Hproto.
  unfold mesh_packet_parser. rewrite Hproto.
  replace (len <=? 0) with false by (symmetry; apply Z.leb_gt; lia).
  destruct (match espconn_mesh_get_usr_data header with
            | Some u => u | None => (header, len) end) as [usr_data usr_data_len].
  split.
  - intros Habsent. rewrite parser_scan_absent by exact Habsent.
    now rewrite Z.add_0_l, Z.eqb_refl.
  - intros pre e post -> Hpre He Hh.
    rewrite parser_scan_null_handler by assumption.
    replace (0 + Z.of_nat (length pre) =? Z.of_nat (length (pre ++ e :: post)))
      with false; [reflexivity|].
    symmetry. apply Z.eqb_neq. rewrite length_app. cbn [length].
    rewrite Nat2Z.inj_add, Nat2Z.inj_succ. lia.
Qed.

End Parser.

Lemma parser_drops_unhandled_protocol_witness :
  mesh_packet_parser sample_proto sample_get_usr_data (sample_table 0 2)
    (Some tt) (Some (SamplePacket mac_R (Some 3) [])) 20 (only_root mac_R)
  = ([Protocol_is_not_supported], Done (only_root mac_R)) /\
  mesh_packet_parser sample_proto sample_get_usr_data
    [Protocol 3 None; Protocol 3 (Some (fun _ _ _ _ => Done None))]
    (Some tt) (Some (SamplePacket mac_R (Some 3) [])) 20 (only_root mac_R)
  = ([No_handler_function_available], Done (only_root mac_R)).
Proof.
  split.
  - apply (parser_drops_unhandled_protocol sample_packet sample_proto
             sample_get_usr_data (sample_table 0 2)
             (SamplePacket mac_R (Some 3) []) 20 3 (only_root mac_R)).
    + lia.
    + reflexivity.
    + intros e [<- | []]. simpl. discriminate.
  - apply (parser_drops_unhandled_protocol sample_packet sample_proto
             sample_get_usr_data
             [Protocol 3 None; Protocol 3 (Some (fun _ _ _ _ => Done None))]
             (SamplePacket mac_R (Some 3) []) 20 3 (only_root mac_R)
             ltac:(lia) eq_refl) with (pre := []) (e := Protocol 3 None)
             (post := [Protocol 3 (Some (fun _ _ _ _ => Done None))]).
    + reflexivity.
    + intros x [].
    + reflexivity.
    + reflexivity.
Defined.

(** ** Stamping and adding on a registry with a root *)



Lemma touch_loop_keeps (now : Z) (a m : mesh_device_mac_type) (n : nat) :
  forall l : list mesh_device_node_type,
    In (Node a now) (firstn n l) ->
    In (Node a now) (firstn n (touch_loop now l n m)).
Proof.
  induction n as [|n IH]; intros [|e l] H; simpl in *; auto.
  cmp_mac (mac_addr e) m.
  - simpl. destruct H as [-> | H]; [left; reflexivity | now right].
  - simpl. destruct H as [H | H]; [now left | right; now apply IH].
Qed.

Lemma touch_loop_sets (now : Z) (a : mesh_device_mac_type) (n : nat) :
  forall l : list mesh_device_node_type,
    In a (addresses (firstn n l)) ->
    In (Node a now) (firstn n (touch_loop now l n a)).
Proof.
  induction n as [|n IH]; intros [|e l] H; simpl in *; auto.
  cmp_mac (mac_addr e) a.
  - simpl. left. unfold set_timestamp. now f_equal.
  - simpl. right. apply IH. tauto.
Qed.

Lemma update_step_members (now : Z) (nl : mesh_device_list_type)
  (m : mesh_device_mac_type) :
  mesh_device_list_search (Some m) (Some nl) = true ->
  members (update_timestamp_step now nl m)
  = firstn (Z.to_nat (entries_count nl - 1))
      (touch_loop now (block nl) (Z.to_nat (entries_count nl - 1)) m).
Proof.
  intros Hs. unfold update_timestamp_step. rewrite Hs.
  unfold members, block.
  destruct (os_memcmp (mac_addr (root nl)) m sizeof_mac =? 0);
    cbn [set_list set_root entries_count list_ root];
    destruct (list_ nl); cbn [option_map]; auto;
    destruct (Z.to_nat (entries_count nl - 1)); reflexivity.
Qed.

Lemma update_step_keeps (now : Z) (a m : mesh_device_mac_type)
  (nl : mesh_device_list_type) :
  In (Node a now) (members nl) ->
  In (Node a now) (members (update_timestamp_step now nl m)).
Proof.
  intros H.
  destruct (mesh_device_list_search (Some m) (Some nl)) eqn:Hs.
  - rewrite update_step_members by exact Hs. now apply touch_loop_keeps.
  - unfold update_timestamp_step. now rewrite Hs.
Qed.

Lemma update_step_sets (now : Z) (a : mesh_device_mac_type)
  (nl : mesh_device_list_type) :
  1 <= entries_count nl ->
  In a (addresses (members nl)) ->
  In (Node a now) (members (update_timestamp_step now nl a)).
Proof.
  intros Hec H.
  assert (Hs : mesh_device_list_search (Some a) (Some nl) = true)
    by (apply search_spec; auto).
  rewrite update_step_members by exact Hs. now apply touch_loop_sets.
Qed.

Lemma update_fold_keeps (now : Z) (a : mesh_device_mac_type)
  (ns : list mesh_device_mac_type) :
  forall nl : mesh_device_list_type,
    In (Node a now) (members nl) ->
    In (Node a now) (members (fold_left (update_timestamp_step now) ns nl)).
Proof.
  induction ns as [|n ns IH]; intros nl H; simpl; auto.
  apply IH. now apply update_step_keeps.
Qed.

Lemma update_fold_sets (now : Z) (a : mesh_device_mac_type)
  (ns : list mesh_device_mac_type) :
  forall nl : mesh_device_list_type,
    1 <= entries_count nl ->
    In a ns ->
    In a (addresses (members nl)) ->
    In (Node a now) (members (fold_left (update_timestamp_step now) ns nl)).
Proof.
  induction ns as [|n ns IH]; intros nl Hec Hin Hmem; simpl in *; [tauto|].
  destruct (mac_eq_dec n a) as [-> | Hne].
  - apply update_fold_keeps. now apply update_step_sets.
  - pose proof (update_timestamp_step_frame now nl n) as Hf.
    pose proof (frame_members _ _ _ Hf) as Hm.
    apply IH.
    + destruct Hf as (-> & _). exact Hec.
    + tauto.
    + now rewrite (Forall2_addresses _ _ _ Hm).
Qed.





(** ** The response handler and a failing [mesh_device_root_set] *)




(** * Further properties of the registry *)

(** ** Searching *)

(** X1. [mesh_device_list_search] answers true exactly for the address of the
    root and the addresses of the members, and only while a root is set. *)
Theorem list_search_characterised :
  forall (a : mesh_device_mac_type) (node_list : registry),
    mesh_device_list_search (Some a) node_list = true <->
    exists r, mesh_device_root_get node_list = Some r /\
              (a = mac_addr r \/ In a (addresses (snapshot node_list))).
Proof.
  intros a [nl|].
  - rewrite snapshot_members. unfold mesh_device_root_get.
    destruct (entries_count nl <=? 0) eqn:E.
    + apply Z.leb_le in E. rewrite search_no_root by exact E.
      split; [discriminate | intros (r & H & _); discriminate].
    + apply Z.leb_gt in E. rewrite search_spec by lia. split.
      * intros H. exists (root nl). auto.
      * intros (r & [= <-] & H). exact H.
  - split; [discriminate | intros (r & H & _); discriminate].
Qed.

(** ** Setting and reading the root *)

(** X2. Unless the struct has to be allocated and the allocation fails,
    [mesh_device_root_set] returns true, and afterwards the root that
    [mesh_device_root_get] hands out carries the address and the search
    finds it. *)
Theorem root_set_then_get :
  forall (os_zalloc_ok : Z -> bool) (a : mesh_device_mac_type)
         (node_list : registry),
    node_list <> None \/ os_zalloc_ok sizeof_list = true ->
    exists node_list',
      mesh_device_root_set os_zalloc_ok (Some a) node_list
        = Done (true, node_list') /\
      option_map mac_addr (mesh_device_root_get node_list') = Some a /\
      mesh_device_list_search (Some a) node_list' = true.
Proof.
  intros ok a node_list Hinit.
  assert (Hfresh : mesh_device_root_get (only_root a) = Some (Node a 0)) by reflexivity.
  assert (H : exists node_list',
            mesh_device_root_set ok (Some a) node_list = Done (true, node_list') /\
            option_map mac_addr (mesh_device_root_get node_list') = Some a).
  { destruct node_list as [nl|].
    - unfold mesh_device_root_set.
      destruct (entries_count nl <=? 0) eqn:E.
      + exists (only_root a). simpl. rewrite os_memcmp_refl. auto.
      + destruct (mac_eq_dec (mac_addr (root nl)) a) as [Heq|Hne].
        * exists (Some nl). rewrite <- Heq, os_memcmp_refl. simpl.
          rewrite os_memcmp_refl. split; [reflexivity|].
          unfold mesh_device_root_get. now rewrite E.
        * exists (only_root a). rewrite (os_memcmp_neq _ _ Hne). simpl.
          rewrite os_memcmp_refl. auto.
    - destruct Hinit as [Hinit|Hinit]; [congruence|].
      exists (only_root a). unfold mesh_device_root_set, mesh_device_list_init.
      rewrite Hinit. simpl. rewrite os_memcmp_refl. auto. }
  destruct H as (st & Hset & Hget). exists st. repeat split; auto.
  destruct st as [nl'|]; [| discriminate].
  unfold mesh_device_root_get in Hget.
  destruct (entries_count nl' <=? 0) eqn:E; [discriminate|].
  apply Z.leb_gt in E. apply search_spec; [lia|]. left.
  cbn [option_map] in Hget. congruence.
Qed.

Lemma root_set_then_get_witness :
  exists node_list',
    mesh_device_root_set (fun _ => false) (Some mac_A)
      (Some (NodeList 2 (Node mac_R 7) (Some [Node mac_B 9])))
      = Done (true, node_list') /\
    option_map mac_addr (mesh_device_root_get node_list') = Some mac_A /\
    mesh_device_list_search (Some mac_A) node_list' = true.
Proof.
  apply root_set_then_get. left. discriminate.
Defined.

(** ** Adding and searching *)

(** X3. After an add that returns true, the search finds every address that
    was given and every address it found before; an add that returns false
    has changed nothing. *)
Theorem add_then_search :
  forall (os_zalloc_ok : Z -> bool) (nodes : list mesh_device_mac_type)
         (nl : mesh_device_list_type) (added : bool) (node_list' : registry),
    wf nl -> 1 <= entries_count nl ->
    entries_count nl + Z.of_nat (length nodes) <= 65535 ->
    mesh_device_add os_zalloc_ok (Some nodes) (Some nl) = (added, node_list') ->
    if added
    then forall a, In a nodes \/ mesh_device_list_search (Some a) (Some nl) = true ->
                   mesh_device_list_search (Some a) node_list' = true
    else node_list' = Some nl.
Proof.
  intros ok nodes nl added st' Hwf Hec Hmax Hadd.
  assert (Hcnt : (length (filter (not_registered nl) nodes) <= length nodes)%nat)
    by apply filter_length_le.
  destruct (add_result ok nodes nl Hwf Hec) as
    [[Hfr E] | [(Hfr & _ & E) | (Hfr & _ & nl' & E & Hwf' & Hr & Hc & Hm)]];
    try lia; rewrite E in Hadd; injection Hadd as <- <-.
  - intros a [Ha | Ha]; [| exact Ha].
    apply (search_known nl a Hec).
    now apply (proj1 (fresh_addresses_nil (known nl) nodes) Hfr).
  - reflexivity.
  - intros a Ha. apply search_known; [lia|].
    assert (Hk : In a (known nl) \/ In a (fresh_addresses (known nl) nodes)).
    { destruct Ha as [Ha | Ha].
      - destruct (in_dec mac_eq_dec a (known nl)); [now left | right].
        apply fresh_addresses_in. auto.
      - left. now apply (search_known nl a Hec). }
    unfold known in *. rewrite Hr, Hm. unfold addresses in *.
    rewrite map_app, map_map. simpl. rewrite map_id.
    simpl in Hk. rewrite in_app_iff. tauto.
Qed.

Lemma add_then_search_witness :
  mesh_device_list_search (Some mac_B)
    (snd (mesh_device_add plenty (Some [mac_A; mac_B; mac_A])
            (only_root mac_R))) = true.
Proof.
  assert (Hwf : wf (NodeList 1 (Node mac_R 0) None)) by (unfold wf; simpl; lia).
  assert (Hec : 1 <= entries_count (NodeList 1 (Node mac_R 0) None))
    by (simpl; lia).
  assert (Hmax : entries_count (NodeList 1 (Node mac_R 0) None)
                 + Z.of_nat (length [mac_A; mac_B; mac_A]) <= 65535)
    by (simpl; lia).
  exact (add_then_search plenty [mac_A; mac_B; mac_A]
           (NodeList 1 (Node mac_R 0) None) true _ Hwf Hec Hmax eq_refl
           mac_B (or_introl (or_intror (or_introl eq_refl)))).
Defined.

(** ** Deleting several nodes *)

(** The [for] loop of [mesh_device_del] on the address of a member, in
    terms of the members. *)
Lemma del_entry_wf (nl : mesh_device_list_type) (e : mesh_device_node_type)
  (pre post : list mesh_device_node_type) :
  wf nl ->
  members nl = pre ++ e :: post ->
  ~ In (mac_addr e) (addresses pre) ->
  wf (del_entry nl (mac_addr e)) /\
  members (del_entry nl (mac_addr e)) = pre ++ post /\
  root (del_entry nl (mac_addr e)) = root nl /\
  entries_count (del_entry nl (mac_addr e)) = entries_count nl - 1 /\
  2 <= entries_count nl.
Proof.
  intros Hwf Hmem Hn.
  assert (Hlen : length (members nl) = S (length pre + length post))
    by (rewrite Hmem, length_app; simpl; lia).
  assert (Hec : 2 <= entries_count nl).
  { unfold members in Hlen. pose proof (firstn_le_length
      (Z.to_nat (entries_count nl - 1)) (block nl)). lia. }
  pose proof (members_length nl Hwf ltac:(lia)) as Hml.
  destruct Hwf as [Hrange Hblock].
  assert (Hb : block nl = pre ++ e :: post
                 ++ skipn (Z.to_nat (entries_count nl - 1)) (block nl)).
  { rewrite <- (firstn_skipn (Z.to_nat (entries_count nl - 1)) (block nl)) at 1.
    fold (members nl). rewrite Hmem, <- app_assoc. reflexivity. }
  set (slack := skipn (Z.to_nat (entries_count nl - 1)) (block nl)) in *.
  clearbody slack.
  destruct nl as [ec r l]. cbn [entries_count root] in *.
  unfold block in Hb, Hblock. cbn [list_] in Hb, Hblock.
  destruct l as [bl|]; [| destruct pre; discriminate Hb]. subst bl.
  assert (Hsum : ec - 1 = Z.of_nat (length pre) + 1 + Z.of_nat (length post))
    by lia.
  destruct (del_entry_member ec r e pre post slack) as (tail & -> & Htail);
    auto; try lia.
  cbn [entries_count root].
  split; [| split; [| split; [reflexivity | split; [reflexivity | lia]]]].
  - unfold wf, block. cbn [entries_count list_]. rewrite !length_app. lia.
  - replace (ec - 1) with (1 + Z.of_nat (length (pre ++ post)))
      by (rewrite length_app; lia).
    rewrite app_assoc. apply members_prefix.
Qed.

Lemma listed_other (n : mesh_device_mac_type) (rest : list mesh_device_mac_type)
  (e : mesh_device_node_type) :
  mac_addr e <> n -> listed (n :: rest) e = listed rest e.
Proof.
  intros H. unfold listed.
  destruct (in_dec mac_eq_dec (mac_addr e) (n :: rest)) as [[H1|H1]|H1],
           (in_dec mac_eq_dec (mac_addr e) rest) as [H2|H2];
    simpl in *; try congruence; tauto.
Qed.

Lemma filter_listed_other (n : mesh_device_mac_type)
  (rest : list mesh_device_mac_type) (l : list mesh_device_node_type) :
  ~ In n (addresses l) ->
  filter (fun e => negb (listed (n :: rest) e)) l
  = filter (fun e => negb (listed rest e)) l.
Proof.
  intros H. apply filter_ext_in. intros e He. rewrite listed_other; auto.
  intros <-. apply H. unfold addresses. now apply in_map.
Qed.

(** The [while] loop of [mesh_device_del] on pairwise different addresses
    that are all registered: it ends, and the members named are gone. *)
Lemma del_loop_registered (ns : list mesh_device_mac_type) :
  forall (fuel : nat) (nl : mesh_device_list_type),
    wf nl -> 1 <= entries_count nl -> NoDup (known nl) ->
    NoDup ns -> incl ns (known nl) ->
    (length ns < fuel)%nat ->
    exists nl',
      del_loop fuel ns nl = Done (false, nl') /\
      wf nl' /\ 1 <= entries_count nl' /\ root nl' = root nl /\
      entries_count nl' <= entries_count nl /\
      (entries_count nl' = entries_count nl -> nl' = nl) /\
      members nl' = filter (fun e => negb (listed ns e)) (members nl).
Proof.
  induction ns as [|n rest IH]; intros fuel nl Hwf Hec Hnd Hns Hincl Hfuel;
    (destruct fuel as [|fuel]; [simpl in Hfuel; lia|]).
  - exists nl. cbn [del_loop].
    split; [reflexivity|]. split; [exact Hwf|]. split; [exact Hec|].
    split; [reflexivity|]. split; [lia|]. split; [reflexivity|].
    symmetry. apply forallb_filter_id. apply forallb_forall. reflexivity.
  - cbn [del_loop].
    assert (Hn : In n (known nl)) by (apply Hincl; now left).
    rewrite (proj2 (search_known nl n Hec) Hn), del_root_test_dead.
    inversion Hns as [|x l Hnotin Hrest]; subst.
    inversion Hnd as [|x l Hroot Hmem]; subst.
    simpl length in Hfuel.
    destruct Hn as [Hn | Hn].
    + (* the address of the root: nothing to delete *)
      rewrite del_entry_absent by (rewrite <- Hn; exact Hroot).
      destruct (IH fuel nl) as (nl' & Hrun & Hwf' & Hec' & Hr' & Hle & Hsame & Hm');
        auto; try lia.
      { intros a Ha. destruct (Hincl a (or_intror Ha)) as [H|H]; [| now right].
        exfalso. apply Hnotin. congruence. }
      exists nl'. split; [exact Hrun|]. split; [exact Hwf'|].
      split; [exact Hec'|]. split; [exact Hr'|]. split; [exact Hle|].
      split; [exact Hsame|].
      rewrite Hm'. symmetry. apply filter_listed_other. now rewrite <- Hn.
    + (* the address of a member *)
      unfold addresses in Hn. apply in_map_iff in Hn.
      destruct Hn as (e & <- & He).
      apply in_split in He. destruct He as (pre & post & Hsplit).
      assert (Hsep : ~ In (mac_addr e) (addresses pre) /\
                     ~ In (mac_addr e) (addresses post)).
      { unfold addresses in *. rewrite Hsplit, map_app in Hmem. simpl in Hmem.
        apply NoDup_remove_2 in Hmem. rewrite in_app_iff in Hmem. tauto. }
      destruct (del_entry_wf nl e pre post Hwf Hsplit (proj1 Hsep))
        as (Hwf1 & Hm1 & Hr1 & Hc1 & Hec2).
      destruct (IH fuel (del_entry nl (mac_addr e)))
        as (nl' & Hrun & Hwf' & Hec' & Hr' & Hle & Hsame & Hm');
        auto; try lia.
      { unfold known. rewrite Hr1, Hm1. constructor.
        - intros H. apply Hroot. unfold addresses in *.
          rewrite Hsplit, map_app. simpl. rewrite map_app in H.
          rewrite in_app_iff in *. simpl. tauto.
        - unfold addresses in *. rewrite Hsplit, map_app in Hmem. simpl in Hmem.
          apply NoDup_remove_1 in Hmem. now rewrite map_app. }
      { intros a Ha. assert (Hne : a <> mac_addr e) by (intros ->; tauto).
        destruct (Hincl a (or_intror Ha)) as [H|H].
        - left. now rewrite Hr1.
        - right. rewrite Hm1. unfold addresses in H |- *.
          rewrite Hsplit, map_app in H. rewrite map_app.
          apply in_app_iff in H. apply in_app_iff.
          destruct H as [H | [H | H]]; [now left | congruence | now right]. }
      exists nl'. split; [exact Hrun|]. split; [exact Hwf'|].
      split; [exact Hec'|]. split; [congruence|]. split; [lia|].
      split; [intros; lia|].
      assert (Hl : listed (mac_addr e :: rest) e = true).
      { unfold listed.
        destruct (in_dec mac_eq_dec (mac_addr e) (mac_addr e :: rest)) as [_|H];
          [reflexivity | exfalso; apply H; now left]. }
      rewrite Hm', Hm1, Hsplit, !filter_app. cbn [filter]. rewrite Hl.
      cbn [negb]. f_equal; symmetry; apply filter_listed_other; tauto.
Qed.

(** The part of [mesh_device_del] behind the loop: the block is replaced
    by one of the right size if that is granted; the entries in use are
    the same either way. *)
Lemma del_after_loop (os_zalloc_ok : Z -> bool) (fuel : nat)
  (ns : list mesh_device_mac_type) (nl nl' : mesh_device_list_type) :
  ns <> [] -> 1 <= entries_count nl ->
  del_loop fuel ns nl = Done (false, nl') ->
  wf nl' -> 1 <= entries_count nl' ->
  (entries_count nl' = entries_count nl -> nl' = nl) ->
  exists b nl'',
    mesh_device_del os_zalloc_ok fuel (Some ns) (Some nl) = Done (b, Some nl'') /\
    wf nl'' /\ members nl'' = members nl' /\ root nl'' = root nl' /\
    entries_count nl'' = entries_count nl' /\
    (entries_count nl' = entries_count nl -> b = true /\ nl'' = nl).
Proof.
  intros Hns Hec Hloop Hwf' Hec' Hsame. unfold mesh_device_del.
  replace (Z.of_nat (length ns) <=? 0) with false
    by (symmetry; apply Z.leb_gt; destruct ns; [congruence | simpl length; lia]).
  replace (entries_count nl <=? 0) with false by (symmetry; apply Z.leb_gt; lia).
  rewrite Hloop. cbn [bind].
  destruct (entries_count nl' =? entries_count nl) eqn:E; cbn [negb].
  - apply Z.eqb_eq in E. exists true, nl'. rewrite (Hsame E) in *.
    split; [reflexivity|]. split; [exact Hwf'|]. repeat split.
  - apply Z.eqb_neq in E.
    pose proof (members_length nl' Hwf' Hec') as Hlen.
    destruct (1 <? entries_count nl') eqn:E1.
    + destruct (os_zalloc_ok ((entries_count nl' - 1) * sizeof_node)).
      * assert (Hbuf : memcpy_nodes (zalloc_nodes (entries_count nl' - 1)) 0
                         (block nl') (Z.to_nat (entries_count nl' - 1))
                       = members nl').
        { unfold memcpy_nodes, zalloc_nodes. simpl firstn. simpl app. simpl plus.
          fold (members nl').
          rewrite skipn_all2 by (rewrite repeat_length; lia).
          apply app_nil_r. }
        rewrite Hbuf. eexists. eexists. split; [reflexivity|].
        assert (Hm : members (set_list (Some (members nl')) nl') = members nl').
        { unfold members at 1. unfold block, set_list. cbn [entries_count list_].
          apply firstn_all2. lia. }
        destruct Hwf' as [Hrange _].
        split; [| split; [exact Hm | split; [reflexivity | split; [reflexivity |]]]].
        -- unfold wf, block, set_list. cbn [entries_count list_]. lia.
        -- intros; congruence.
      * exists false, nl'. split; [reflexivity|]. split; [exact Hwf'|].
        repeat split; intros; congruence.
    + apply Z.ltb_ge in E1. exists true, (set_list None nl').
      split; [reflexivity|]. destruct Hwf' as [Hrange _].
      split; [| split; [| split; [reflexivity | split; [reflexivity |]]]].
      * unfold wf, block, set_list. cbn [entries_count list_]. simpl length. lia.
      * unfold members, block, set_list. cbn [entries_count list_].
        replace (Z.to_nat (entries_count nl' - 1)) with O by lia. reflexivity.
      * intros; congruence.
Qed.

(** X4. [mesh_device_del] on pairwise different addresses that are all
    registered returns, and afterwards exactly the members named are gone:
    the others keep their order and their time stamps, and the root stays,
    also when its own address was named. *)
Theorem del_registered_addresses :
  forall (os_zalloc_ok : Z -> bool) (fuel : nat)
         (ns : list mesh_device_mac_type) (nl : mesh_device_list_type),
    registry_inv (Some nl) -> 1 <= entries_count nl ->
    NoDup ns -> incl ns (known nl) ->
    (length ns < fuel)%nat ->
    exists b node_list',
      mesh_device_del os_zalloc_ok fuel (Some ns) (Some nl)
        = Done (b, node_list') /\
      registry_inv node_list' /\
      snapshot node_list'
        = filter (fun e => negb (listed ns e)) (snapshot (Some nl)) /\
      mesh_device_root_get node_list' = Some (root nl).
Proof.
  intros ok fuel ns nl [Hwf Hnd] Hec Hns Hincl Hfuel. specialize (Hnd Hec).
  assert (Hroot : forall nl'', 1 <= entries_count nl'' -> root nl'' = root nl ->
            mesh_device_root_get (Some nl'') = Some (root nl)).
  { intros nl'' H1 H2. unfold mesh_device_root_get.
    replace (entries_count nl'' <=? 0) with false
      by (symmetry; apply Z.leb_gt; lia). now rewrite H2. }
  destruct ns as [|n rest].
  - exists true, (Some nl). split; [reflexivity|]. split; [split; auto|].
    split; [| apply Hroot; auto].
    symmetry. apply forallb_filter_id. apply forallb_forall. reflexivity.
  - destruct (del_loop_registered (n :: rest) fuel nl Hwf Hec Hnd Hns Hincl Hfuel)
      as (nl' & Hloop & Hwf' & Hec' & Hr' & Hle & Hsame & Hm').
    destruct (del_after_loop ok fuel (n :: rest) nl nl' ltac:(discriminate)
                Hec Hloop Hwf' Hec' Hsame)
      as (b & nl'' & -> & Hwf'' & Hm'' & Hr'' & Hc'' & _).
    exists b, (Some nl''). split; [reflexivity|].
    rewrite !snapshot_members, Hm'', Hm'.
    split; [| split; [reflexivity | apply Hroot; [lia | congruence]]].
    split; [exact Hwf''|]. intros _. unfold known in *.
    rewrite Hr'', Hr', Hm'', Hm'.
    inversion Hnd as [|x l Hx Hl]; subst. constructor.
    + intros Hin. apply Hx. unfold addresses in *.
      apply in_map_iff in Hin. destruct Hin as (e & He & Hin).
      apply filter_In in Hin. apply in_map_iff. exists e. tauto.
    + unfold addresses in *. clear - Hl.
      induction (members nl) as [|e l IH]; simpl in *; [constructor|].
      inversion Hl; subst.
      destruct (negb (listed (n :: rest) e)); simpl; auto.
      constructor; auto. intros Hin. apply in_map_iff in Hin.
      destruct Hin as (e' & He' & Hin). apply filter_In in Hin.
      match goal with H : ~ In _ _ |- _ => apply H end.
      apply in_map_iff. exists e'. tauto.
Qed.

Lemma del_registered_addresses_witness :
  exists b node_list',
    mesh_device_del (fun _ => false) 3 (Some [mac_C; mac_R])
      (Some (NodeList 4 (Node mac_R 0)
               (Some [Node mac_A 1; Node mac_B 2; Node mac_C 3])))
      = Done (b, node_list') /\
    registry_inv node_list' /\
    snapshot node_list' = [Node mac_A 1; Node mac_B 2] /\
    mesh_device_root_get node_list' = Some (Node mac_R 0).
Proof.
  assert (Hinv : registry_inv
            (Some (NodeList 4 (Node mac_R 0)
               (Some [Node mac_A 1; Node mac_B 2; Node mac_C 3])))).
  { split.
    - unfold wf. simpl. lia.
    - intros _. unfold known. simpl.
      repeat constructor; simpl; intuition discriminate. }
  apply (del_registered_addresses (fun _ => false) 3 [mac_C; mac_R] _ Hinv).
  - simpl. lia.
  - repeat constructor; simpl; intuition discriminate.
  - intros a [<- | [<- | []]]; unfold known; simpl; tauto.
  - simpl. lia.
Defined.

(** X5. An address of a member that is given twice makes [mesh_device_del]
    hang: the first occurrence deletes the member, the second is then
    unknown, and the loop does not move past an unknown address. *)
Theorem del_repeated_address_never_returns :
  forall (os_zalloc_ok : Z -> bool) (fuel : nat) (nl : mesh_device_list_type)
         (a : mesh_device_mac_type) (rest : list mesh_device_mac_type),
    registry_inv (Some nl) ->
    In a (addresses (snapshot (Some nl))) ->
    mesh_device_del os_zalloc_ok fuel (Some (a :: a :: rest)) (Some nl) = Spin.
Proof.
  intros ok fuel nl a rest [Hwf Hnd] Ha. rewrite snapshot_members in Ha.
  unfold addresses in Ha. apply in_map_iff in Ha. destruct Ha as (e & <- & He).
  apply in_split in He. destruct He as (pre & post & Hsplit).
  assert (Hec : 2 <= entries_count nl).
  { assert (Hlen : length (members nl) = S (length pre + length post))
      by (rewrite Hsplit, length_app; simpl; lia).
    unfold members in Hlen. pose proof (firstn_le_length
      (Z.to_nat (entries_count nl - 1)) (block nl)). lia. }
  specialize (Hnd ltac:(lia)). inversion Hnd as [|x l Hroot Hmem]; subst.
  assert (Hsep : ~ In (mac_addr e) (addresses pre) /\
                 ~ In (mac_addr e) (addresses post)).
  { unfold addresses in *. rewrite Hsplit, map_app in Hmem. simpl in Hmem.
    apply NoDup_remove_2 in Hmem. rewrite in_app_iff in Hmem. tauto. }
  destruct (del_entry_wf nl e pre post Hwf Hsplit (proj1 Hsep))
    as (Hwf1 & Hm1 & Hr1 & Hc1 & _).
  unfold mesh_device_del. simpl length.
  replace (Z.of_nat (S (S (length rest))) <=? 0) with false
    by (symmetry; apply Z.leb_gt; lia).
  replace (entries_count nl <=? 0) with false by (symmetry; apply Z.leb_gt; lia).
  destruct fuel as [|fuel]; [reflexivity|]. cbn [del_loop].
  assert (Hs : mesh_device_list_search (Some (mac_addr e)) (Some nl) = true).
  { apply search_spec; [lia|]. right. rewrite Hsplit. unfold addresses.
    rewrite map_app, in_app_iff. right. now left. }
  rewrite Hs, del_root_test_dead, del_loop_unknown_spins; [reflexivity|].
  apply search_unknown; [lia|]. unfold known. rewrite Hr1, Hm1.
  intros [H | H].
  - apply Hroot. rewrite H, Hsplit. unfold addresses.
    rewrite map_app, in_app_iff. right. now left.
  - unfold addresses in H. rewrite map_app, in_app_iff in H. tauto.
Qed.

Lemma del_repeated_address_never_returns_witness :
  mesh_device_del plenty 1000 (Some [mac_A; mac_A])
    (Some (NodeList 2 (Node mac_R 0) (Some [Node mac_A 1]))) = Spin.
Proof.
  apply del_repeated_address_never_returns.
  - split.
    + unfold wf. simpl. lia.
    + intros _. unfold known. simpl.
      repeat constructor; simpl; intuition discriminate.
  - simpl. now left.
Defined.

(** ** What the time-stamp update writes *)

Lemma update_step_root (now : Z) (nl : mesh_device_list_type)
  (m : mesh_device_mac_type) :
  root (update_timestamp_step now nl m) = root nl \/
  root (update_timestamp_step now nl m) = set_timestamp now (root nl).
Proof.
  unfold update_timestamp_step.
  destruct (mesh_device_list_search (Some m) (Some nl)); [| now left].
  destruct (os_memcmp (mac_addr (root nl)) m sizeof_mac =? 0); [right | left];
    reflexivity.
Qed.

Lemma update_step_root_sets (now : Z) (nl : mesh_device_list_type) :
  1 <= entries_count nl ->
  root (update_timestamp_step now nl (mac_addr (root nl)))
  = set_timestamp now (root nl).
Proof.
  intros Hec. unfold update_timestamp_step.
  rewrite (proj2 (search_spec nl _ Hec) (or_introl eq_refl)).
  now rewrite os_memcmp_refl.
Qed.

Lemma update_fold_root (now : Z) (ns : list mesh_device_mac_type) :
  forall nl : mesh_device_list_type,
    root (fold_left (update_timestamp_step now) ns nl) = root nl \/
    root (fold_left (update_timestamp_step now) ns nl)
    = set_timestamp now (root nl).
Proof.
  induction ns as [|n ns IH]; intros nl; simpl; [now left|].
  destruct (IH (update_timestamp_step now nl n)) as [-> | ->];
    destruct (update_step_root now nl n) as [-> | ->]; auto.
Qed.

Lemma update_fold_root_sets (now : Z) (ns : list mesh_device_mac_type) :
  forall nl : mesh_device_list_type,
    1 <= entries_count nl ->
    In (mac_addr (root nl)) ns ->
    root (fold_left (update_timestamp_step now) ns nl)
    = set_timestamp now (root nl).
Proof.
  induction ns as [|n ns IH]; intros nl Hec Hin; simpl in *; [tauto|].
  destruct (mac_eq_dec n (mac_addr (root nl))) as [-> | Hne].
  - destruct (update_fold_root now ns
                (update_timestamp_step now nl (mac_addr (root nl)))) as [-> | ->];
      rewrite update_step_root_sets by exact Hec; reflexivity.
  - pose proof (update_timestamp_step_frame now nl n) as (Hc & [Hr Ht] & _).
    assert (Hroot : root (update_timestamp_step now nl n) = root nl).
    { destruct (root (update_timestamp_step now nl n)) as [a t] eqn:E.
      destruct (root nl) as [a0 t0]. simpl in *. f_equal; auto. }
    rewrite IH; rewrite ?Hroot, ?Hc; auto. tauto.
Qed.

Lemma NoDup_addresses_eq (l : list mesh_device_node_type)
  (e e' : mesh_device_node_type) :
  NoDup (addresses l) -> In e l -> In e' l -> mac_addr e = mac_addr e' -> e = e'.
Proof.
  induction l as [|x l IH]; intros Hnd He He' Heq; [destruct He|].
  simpl in Hnd. inversion Hnd as [|y k Hx Hl]; subst.
  assert (Hin : forall z, In z l -> In (mac_addr z) (addresses l))
    by (intros z Hz; unfold addresses; now apply in_map).
  destruct He as [<- | He], He' as [<- | He']; auto.
  - exfalso. apply Hx. rewrite Heq. auto.
  - exfalso. apply Hx. rewrite <- Heq. auto.
Qed.

(** X6. With a root set, [mesh_device_update_timestamp] returns true, and
    afterwards the root, if its address was given, and every member whose
    address was given carry the time of the call. *)
Theorem update_timestamp_stamps :
  forall (now : Z) (ns : list mesh_device_mac_type)
         (nl : mesh_device_list_type),
    registry_inv (Some nl) -> 1 <= entries_count nl ->
    exists nl',
      mesh_device_update_timestamp now (Some ns) (Some nl) = (true, Some nl') /\
      (In (mac_addr (root nl)) ns -> root nl' = Node (mac_addr (root nl)) now) /\
      Forall (fun e => In (mac_addr e) ns -> timestamp e = now)
        (snapshot (Some nl')).
Proof.
  intros now ns nl [Hwf Hnd] Hec. specialize (Hnd Hec).
  unfold mesh_device_update_timestamp.
  replace (entries_count nl <=? 0) with false by (symmetry; apply Z.leb_gt; lia).
  eexists. split; [reflexivity|].
  pose proof (update_timestamp_fold_frame now ns nl) as Hf.
  pose proof (frame_members _ _ _ Hf) as Hm.
  pose proof (Forall2_addresses _ _ _ Hm) as Ha.
  split.
  - intros Hin. now rewrite update_fold_root_sets.
  - rewrite snapshot_members. apply Forall_forall. intros e He Hin.
    assert (Hmem : In (mac_addr e) (addresses (members nl))).
    { rewrite <- Ha. unfold addresses. now apply in_map. }
    pose proof (update_fold_sets now (mac_addr e) ns nl Hec Hin Hmem) as Hset.
    assert (E : e = Node (mac_addr e) now).
    { eapply NoDup_addresses_eq; eauto.
      rewrite Ha. unfold known in Hnd. now inversion Hnd. }
    now rewrite E.
Qed.

Lemma update_timestamp_stamps_witness :
  exists nl',
    mesh_device_update_timestamp 500 (Some [mac_B; mac_R; mac_C])
      (Some (NodeList 3 (Node mac_R 0) (Some [Node mac_A 1; Node mac_B 2])))
    = (true, Some nl') /\
    (In mac_R [mac_B; mac_R; mac_C] -> root nl' = Node mac_R 500) /\
    Forall (fun e => In (mac_addr e) [mac_B; mac_R; mac_C] -> timestamp e = 500)
      (snapshot (Some nl')).
Proof.
  apply (update_timestamp_stamps 500 [mac_B; mac_R; mac_C]
           (NodeList 3 (Node mac_R 0) (Some [Node mac_A 1; Node mac_B 2]))).
  - split.
    + unfold wf. simpl. lia.
    + intros _. unfold known. simpl.
      repeat constructor; simpl; intuition discriminate.
  - simpl. lia.
Defined.

(** * Further properties of the time-out sweep *)

Lemma wrap32_elapsed (ts d : Z) :
  0 <= d < 4294967296 -> wrap32 (wrap32 (ts + d) - ts) = d.
Proof.
  intros Hd. unfold wrap32. rewrite Zminus_mod_idemp_l.
  replace (ts + d - ts) with d by lia. now apply Z.mod_small.
Qed.

(** X8. The test of the sweep sees the time that has passed since the stamp,
    also when the 32-bit clock has wrapped in between: an entry stamped [d]
    microseconds ago is timed out exactly when [d / 1000] is above the
    threshold. *)
Theorem timed_out_by_elapsed_time :
  forall (a : mesh_device_mac_type) (ts d threshold : Z),
    0 <= d < 4294967296 ->
    0 <= threshold < 4294967296 ->
    timed_out (wrap32 (ts + d)) threshold (Node a ts) = (threshold <? d / 1000).
Proof.
  intros a ts d th Hd Hth. unfold timed_out. cbn [timestamp].
  rewrite wrap32_elapsed by exact Hd.
  unfold wrap32 at 1. now rewrite Z.mod_small.
Qed.

Lemma timed_out_by_elapsed_time_witness :
  timed_out (wrap32 (4294960000 + 31000000)) SUB_NODE_TIMEOUT_THRESHOLD
    (Node mac_A 4294960000)
  = (SUB_NODE_TIMEOUT_THRESHOLD <? 31000000 / 1000).
Proof.
  apply timed_out_by_elapsed_time; unfold SUB_NODE_TIMEOUT_THRESHOLD; lia.
Defined.



(** * Further properties of the packet parser *)

Section ParserDispatch.

Variable mesh_header_format : Type.
Variable espconn_mesh_get_usr_data_proto : mesh_header_format -> option Z.
Variable espconn_mesh_get_usr_data :
  mesh_header_format -> option (mesh_header_format * Z).

Lemma parser_scan_first_match
  (pre : list (mesh_parser_protocol_type mesh_header_format)) :
  forall (e : mesh_parser_protocol_type mesh_header_format)
         (post : list (mesh_parser_protocol_type mesh_header_format))
         (h : mesh_parser_protocol_handler mesh_header_format)
         (idx proto : Z) (header usr_data : mesh_header_format)
         (usr_data_len : Z) (node_list : registry),
    (forall x, In x pre -> protocol x <> proto) ->
    protocol e = proto -> handler e = Some h ->
    parser_scan (pre ++ e :: post) idx proto header usr_data usr_data_len node_list
    = (idx + Z.of_nat (length pre), [Handler_invoked (idx + Z.of_nat (length pre))],
       h (Some header) (Some usr_data) usr_data_len node_list).
Proof.
  induction pre as [|x pre IH];
    intros e post h idx proto header usr_data len st Hpre He Hh; simpl app.
  - cbn [parser_scan length]. rewrite He, Z.eqb_refl, Hh.
    now rewrite Z.add_0_r.
  - cbn [parser_scan length].
    replace (protocol x =? proto) with false
      by (symmetry; apply Z.eqb_neq; apply Hpre; now left).
    rewrite (IH e post h); auto.
    + rewrite Nat2Z.inj_succ.
      replace (idx + 1 + Z.of_nat (length pre))
        with (idx + Z.succ (Z.of_nat (length pre))) by lia.
      reflexivity.
    + intros y Hy. apply Hpre. now right.
Qed.

(** X10. A message whose protocol resolves is handed to the handler of the
    first entry of the table that carries the protocol, and to no other:
    the handler gets the header and the data part of the message, or, when
    the message has no data part, the message itself and its length. *)
Theorem parser_invokes_first_match :
  forall (pre post : list (mesh_parser_protocol_type mesh_header_format))
         (e : mesh_parser_protocol_type mesh_header_format)
         (h : mesh_parser_protocol_handler mesh_header_format)
         (header : mesh_header_format) (len proto : Z) (node_list : registry),
    0 < len ->
    espconn_mesh_get_usr_data_proto header = Some proto ->
    (forall x, In x pre -> protocol x <> proto) ->
    protocol e = proto -> handler e = Some h ->
    mesh_packet_parser espconn_mesh_get_usr_data_proto espconn_mesh_get_usr_data
      (pre ++ e :: post) (Some tt) (Some header) len node_list
    = ([Handler_invoked (Z.of_nat (length pre))],
       match espconn_mesh_get_usr_data header with
       | Some (usr_data, usr_data_len) =>
           h (Some header) (Some usr_data) usr_data_len node_list
       | None => h (Some header) (Some header) len node_list
       end).
Proof.
  intros pre post e h header len proto st Hlen Hproto Hpre He Hh.
  unfold mesh_packet_parser. rewrite Hproto.
  replace (len <=? 0) with false by (symmetry; apply Z.leb_gt; lia).
  assert (Hidx : (0 + Z.of_nat (length pre)
                  =? Z.of_nat (length (pre ++ e :: post))) = false).
  { apply Z.eqb_neq. rewrite length_app. cbn [length].
    rewrite Nat2Z.inj_add, Nat2Z.inj_succ. lia. }
  destruct (espconn_mesh_get_usr_data header) as [[usr_data usr_data_len]|];
    rewrite (parser_scan_first_match pre e post h) by assumption;
    rewrite Hidx; reflexivity.
Qed.

Lemma parser_scan_quiet
  (table : list (mesh_parser_protocol_type mesh_header_format)) :
  forall (idx proto : Z) (header usr_data : mesh_header_format)
         (usr_data_len : Z) (node_list : registry),
    (exists i, In (Handler_invoked i)
                 (snd (fst (parser_scan table idx proto header usr_data
                              usr_data_len node_list)))) \/
    snd (parser_scan table idx proto header usr_data usr_data_len node_list)
    = Done node_list.
Proof.
  induction table as [|e rest IH]; intros idx proto header usr_data len st;
    cbn [parser_scan].
  - now right.
  - destruct (protocol e =? proto); [| apply IH].
    destruct (handler e) as [h|]; cbn [fst snd].
    + left. exists idx. now left.
    + now right.
Qed.

(** X11. Whatever the table, the arguments and the message: the parser itself
    never changes the registry.  Either it reports the invocation of a
    handler, or it returns with the registry as it was. *)
Theorem parser_changes_nothing_without_handler :
  forall (table : list (mesh_parser_protocol_type mesh_header_format))
         (arg : option unit) (data : option mesh_header_format) (len : Z)
         (node_list : registry),
    (exists i, In (Handler_invoked i)
                 (fst (mesh_packet_parser espconn_mesh_get_usr_data_proto
                         espconn_mesh_get_usr_data table arg data len
                         node_list))) \/
    snd (mesh_packet_parser espconn_mesh_get_usr_data_proto
           espconn_mesh_get_usr_data table arg data len node_list)
    = Done node_list.
Proof.
  intros table arg data len st. unfold mesh_packet_parser.
  destruct arg as [u|]; [| now right].
  destruct data as [header|]; [| now right].
  destruct (len <=? 0); [now right|].
  destruct (espconn_mesh_get_usr_data_proto header) as [proto|]; [| now right].
  destruct (match espconn_mesh_get_usr_data header with
            | Some u => u | None => (header, len) end) as [usr_data usr_data_len].
  pose proof (parser_scan_quiet table 0 proto header usr_data usr_data_len st)
    as Hscan.
  destruct (parser_scan table 0 proto header usr_data usr_data_len st)
    as [[idx events] result]. cbn [fst snd] in *.
  destruct Hscan as [(i & Hi) | ->]; [left | now right].
  exists i. apply in_app_iff. now left.
Qed.

End ParserDispatch.

Lemma parser_invokes_first_match_witness :
  mesh_packet_parser sample_proto sample_get_usr_data
    [Protocol 3 None; Protocol 0 (Some (fun _ _ _ st => Done (only_root mac_A)));
     Protocol 0 (Some (fun _ _ _ st => Done None))]
    (Some tt) (Some (SamplePacket mac_R (Some 0) [])) 20 (only_root mac_R)
  = ([Handler_invoked 1], Done (only_root mac_A)).
Proof.
  apply (parser_invokes_first_match sample_packet sample_proto
           sample_get_usr_data [Protocol 3 None]
           [Protocol 0 (Some (fun _ _ _ st => Done None))]
           (Protocol 0 (Some (fun _ _ _ st => Done (only_root mac_A))))
           (fun _ _ _ st => Done (only_root mac_A))
           (SamplePacket mac_R (Some 0) []) 20 0 (only_root mac_R)).
  - lia.
  - reflexivity.
  - intros x [<- | []]. simpl. discriminate.
  - reflexivity.
  - reflexivity.
Defined.

(** * The handler of the topology response, from end to end *)

(** ** Adding and stamping an array of addresses *)







(** ** What adding and stamping leaves of the members *)









(** ** Setting the root and stamping it *)


(** ** The whole handler *)

Section HandlerRun.

Variable os_zalloc_ok : Z -> bool.
Variable now : Z.
Variable freed_read : nat -> mesh_device_node_type.
Variable mesh_header_format : Type.
Variable src_addr : mesh_header_format -> mesh_device_mac_type.
Variable espconn_mesh_get_option :
  mesh_header_format -> Z -> option mesh_header_option_format.



End HandlerRun.


(** * The topology test *)

Section TopologyRun.

Variable os_zalloc_ok : Z -> bool.
Variable now : Z.
Variable freed_read : nat -> mesh_device_node_type.
Variable MESH_LOCAL_AVAIL : Z.
Variable MESH_ONLINE_AVAIL : Z.
Variable MESH_SOFTAP_AVAIL : Z.
Variable MESH_LEAF_AVAIL : Z.
Variable SOFTAP_MODE : Z.
Variable STATION_MODE : Z.
Variable STATIONAP_MODE : Z.



(** X14. In the other role the test returns, whatever the mesh library and the
    WiFi driver answer: it leaves the registry alone, it frees every buffer
    it was given, and it returns true exactly when the request has been
    sent with result 0. *)
Theorem topology_test_other_role :
  forall (fuel : nat) (env : topology_env) (node_list : registry),
    espconn_mesh_is_root env = false ->
    exists (result : bool) (events : list topology_event),
      mesh_topology_test os_zalloc_ok now freed_read MESH_LOCAL_AVAIL
        MESH_ONLINE_AVAIL MESH_SOFTAP_AVAIL MESH_LEAF_AVAIL SOFTAP_MODE
        STATION_MODE STATIONAP_MODE fuel env node_list
      = Done (Some result, events, node_list) /\
      freed events = created events /\
      (result = true <-> In (Send_request 0) events).
Proof.
  intros fuel env st Hrole. unfold mesh_topology_test. rewrite Hrole.
  assert (Hquiet : exists (result : bool) (events : list topology_event),
            Done (Some false, @nil topology_event, st)
            = Done (Some result, events, st) /\
            freed events = created events /\
            (result = true <-> In (Send_request 0) events)).
  { exists false, []. split; [reflexivity|]. split; [reflexivity|].
    split; [discriminate | intros []]. }
  destruct (esp_mesh_conn env); cbn [negb]; [| exact Hquiet].
  destruct (negb _); [exact Hquiet|].
  unfold topology_request.
  destruct ((wifi_get_opmode env =? SOFTAP_MODE)
            || (wifi_get_opmode env =? STATION_MODE)
            || (wifi_get_opmode env =? STATIONAP_MODE)); [| exact Hquiet].
  destruct (espconn_mesh_create_packet env); [| exact Hquiet].
  destruct (espconn_mesh_create_option env).
  - destruct (espconn_mesh_add_option env).
    + destruct (espconn_mesh_sent env =? 0) eqn:Es.
      * apply Z.eqb_eq in Es. rewrite Es. eexists _, _.
        split; [reflexivity|]. split; [reflexivity|].
        split; [intros _; simpl; auto | reflexivity].
      * apply Z.eqb_neq in Es. eexists _, _.
        split; [reflexivity|]. split; [reflexivity|].
        split; [discriminate|]. simpl.
        intros [H | [H | [H | [H | [H | []]]]]]; try discriminate.
        injection H as H. congruence.
    + eexists _, _. split; [reflexivity|]. split; [reflexivity|].
      split; [discriminate|]. simpl.
      intros [H | [H | [H | [H | []]]]]; discriminate.
  - eexists _, _. split; [reflexivity|]. split; [reflexivity|].
    split; [discriminate|]. simpl. intros [H | [H | []]]; discriminate.
Qed.

End TopologyRun.


Lemma topology_test_other_role_witness :
  exists (result : bool) (events : list topology_event),
    mesh_topology_test plenty 0 cleared 1 2 3 4 5 6 7 2
      (TopologyEnv true 2 false None 6 true true true (-1))
      (only_root mac_R)
    = Done (Some result, events, only_root mac_R) /\
    freed events = created events /\
    (result = true <-> In (Send_request 0) events).
Proof.
  apply (topology_test_other_role plenty 0 cleared 1 2 3 4 5 6 7 2
           (TopologyEnv true 2 false None 6 true true true (-1))
           (only_root mac_R)).
  reflexivity.
Defined.

(** * esp_mesh.c *)

(** ** The push button *)

(** X15. The mode follows the time the button was held, also when the 32-bit
    clock has wrapped between press and release: root node from 3001
    milliseconds on, sub-node below. *)
Theorem button_mode_by_press_duration :
  forall (s : esp_mesh_state) (t0 d : Z),
    0 <= d < 4294967296 ->
    mode (button_released_interrupt_handler (wrap32 (t0 + d))
            (button_pressed_interrupt_handler t0 s))
    = if 3001000 <=? d then ROOT_NODE else SUB_NODE.
Proof.
  intros s t0 d Hd.
  unfold button_released_interrupt_handler, button_pressed_interrupt_handler.
  cbn [mode actuation_start_time]. rewrite wrap32_elapsed by exact Hd.
  unfold OPERATION_MODE_THRESHOLD.
  pose proof (Z.div_mod d 1000 ltac:(lia)) as Hq.
  pose proof (Z.mod_pos_bound d 1000 ltac:(lia)) as Hr.
  destruct (3000 <? d / 1000) eqn:E1; destruct (3001000 <=? d) eqn:E2;
    try reflexivity; exfalso.
  - apply Z.ltb_lt in E1. apply Z.leb_gt in E2. lia.
  - apply Z.ltb_ge in E1. apply Z.leb_le in E2. lia.
Qed.

Lemma button_mode_by_press_duration_witness :
  mode (button_released_interrupt_handler (wrap32 (4294000000 + 3001000))
          (button_pressed_interrupt_handler 4294000000 esp_mesh_initial))
  = if 3001000 <=? 3001000 then ROOT_NODE else SUB_NODE.
Proof.
  apply button_mode_by_press_duration. lia.
Defined.

(** ** The callbacks of enabling and disabling *)

Section EspMeshRun.

Variable MESH_OP_FAILURE : Z.

Lemma esp_mesh_run_app (events1 events2 : list esp_mesh_event) :
  forall s : esp_mesh_state,
    fst (esp_mesh_run MESH_OP_FAILURE (events1 ++ events2) s)
    = fst (esp_mesh_run MESH_OP_FAILURE events2
             (fst (esp_mesh_run MESH_OP_FAILURE events1 s))).
Proof.
  induction events1 as [|e rest IH]; intros s; [reflexivity|].
  simpl app. cbn [esp_mesh_run].
  destruct (esp_mesh_step MESH_OP_FAILURE e s) as [s1 r1].
  specialize (IH s1).
  destruct (esp_mesh_run MESH_OP_FAILURE (rest ++ events2) s1) as [s2 r2].
  destruct (esp_mesh_run MESH_OP_FAILURE rest s1) as [s3 r3].
  exact IH.
Qed.

Lemma esp_mesh_step_count (e : esp_mesh_event) (s : esp_mesh_state) :
  1 <= esp_mesh_enable_attempt_count s <= MESH_ENABLE_ATTEMPTS_LIMIT ->
  1 <= esp_mesh_enable_attempt_count (fst (esp_mesh_step MESH_OP_FAILURE e s))
    <= MESH_ENABLE_ATTEMPTS_LIMIT.
Proof.
  unfold MESH_ENABLE_ATTEMPTS_LIMIT. intros H.
  destruct e as [t | t | result regist | ]; cbn [esp_mesh_step fst];
    try (simpl; lia).
  unfold esp_mesh_enable_cb, MESH_ENABLE_ATTEMPTS_LIMIT, wrap8.
  destruct (result =? MESH_OP_FAILURE).
  - destruct (esp_mesh_enable_attempt_count s <? 3) eqn:E; cbn [fst]; [| lia].
    apply Z.ltb_lt in E. cbn [esp_mesh_enable_attempt_count].
    rewrite Z.mod_small; lia.
  - destruct (negb (regist =? 0)); simpl; lia.
Qed.

Lemma esp_mesh_run_count (events : list esp_mesh_event) :
  forall s : esp_mesh_state,
    1 <= esp_mesh_enable_attempt_count s <= MESH_ENABLE_ATTEMPTS_LIMIT ->
    1 <= esp_mesh_enable_attempt_count
           (fst (esp_mesh_run MESH_OP_FAILURE events s))
      <= MESH_ENABLE_ATTEMPTS_LIMIT.
Proof.
  induction events as [|e rest IH]; intros s H; [exact H|].
  cbn [esp_mesh_run].
  pose proof (esp_mesh_step_count e s H) as H1.
  destruct (esp_mesh_step MESH_OP_FAILURE e s) as [s1 r1]. cbn [fst] in H1.
  specialize (IH s1 H1).
  destruct (esp_mesh_run MESH_OP_FAILURE rest s1) as [s2 r2]. exact IH.
Qed.

(** X16. Whatever the button and the mesh library have done since the start: a
    streak of failed attempts to enable the node is answered with at most
    two further attempts and then with the request to disable it. *)
Theorem enable_failures_end_in_disable :
  forall (events : list esp_mesh_event) (regist_recvcb : Z),
  exists k : nat,
    (k <= 2)%nat /\
    snd (esp_mesh_run MESH_OP_FAILURE
           (repeat (Enable_cb MESH_OP_FAILURE regist_recvcb) (S k))
           (fst (esp_mesh_run MESH_OP_FAILURE events esp_mesh_initial)))
    = repeat Mesh_enable k ++ [Mesh_disable].
Proof.
  intros events regist.
  assert (Hinit : 1 <= esp_mesh_enable_attempt_count esp_mesh_initial
                    <= MESH_ENABLE_ATTEMPTS_LIMIT)
    by (unfold MESH_ENABLE_ATTEMPTS_LIMIT; simpl; lia).
  pose proof (esp_mesh_run_count events esp_mesh_initial Hinit) as H.
  destruct (fst (esp_mesh_run MESH_OP_FAILURE events esp_mesh_initial))
    as [m t c].
  unfold MESH_ENABLE_ATTEMPTS_LIMIT in H. cbn [esp_mesh_enable_attempt_count] in H.
  assert (Hc : c = 1 \/ c = 2 \/ c = 3) by lia.
  destruct Hc as [-> | [-> | ->]]; [exists 2%nat | exists 1%nat | exists 0%nat];
    (split; [lia|]);
    cbn [repeat esp_mesh_run esp_mesh_step]; unfold esp_mesh_enable_cb;
    rewrite Z.eqb_refl; reflexivity.
Qed.

Lemma esp_mesh_step_mode (e : esp_mesh_event) (s : esp_mesh_state) :
  mode s <> DISABLED ->
  mode (fst (esp_mesh_step MESH_OP_FAILURE e s)) <> DISABLED.
Proof.
  intros H. destruct e as [t | t | result regist | ]; cbn [esp_mesh_step fst].
  - exact H.
  - unfold button_released_interrupt_handler. cbn [mode].
    destruct (OPERATION_MODE_THRESHOLD <? _); discriminate.
  - unfold esp_mesh_enable_cb.
    destruct (result =? MESH_OP_FAILURE);
      [destruct (_ <? _) | destruct (negb _)]; exact H.
  - exact H.
Qed.

Lemma esp_mesh_run_mode (events : list esp_mesh_event) :
  forall s : esp_mesh_state,
    mode s <> DISABLED ->
    mode (fst (esp_mesh_run MESH_OP_FAILURE events s)) <> DISABLED.
Proof.
  induction events as [|e rest IH]; intros s H; [exact H|].
  cbn [esp_mesh_run].
  pose proof (esp_mesh_step_mode e s H) as H1.
  destruct (esp_mesh_step MESH_OP_FAILURE e s) as [s1 r1]. cbn [fst] in H1.
  specialize (IH s1 H1).
  destruct (esp_mesh_run MESH_OP_FAILURE rest s1) as [s2 r2]. exact IH.
Qed.

(** X17. From the first release of the button on, the mode is never [DISABLED]
    again: no callback stores it, the one of [espconn_mesh_disable]
    included. *)
Theorem mode_never_disabled_again :
  forall (before after : list esp_mesh_event) (system_get_time : Z)
         (s : esp_mesh_state),
    mode (fst (esp_mesh_run MESH_OP_FAILURE
                 (before ++ Button_released system_get_time :: after) s))
    <> DISABLED.
Proof.
  intros before after t s. rewrite esp_mesh_run_app.
  set (s0 := fst (esp_mesh_run MESH_OP_FAILURE before s)).
  cbn [esp_mesh_run esp_mesh_step].
  pose proof (esp_mesh_run_mode after (button_released_interrupt_handler t s0))
    as H.
  destruct (esp_mesh_run MESH_OP_FAILURE after
              (button_released_interrupt_handler t s0)) as [s2 r2].
  apply H. unfold button_released_interrupt_handler. cbn [mode].
  destruct (OPERATION_MODE_THRESHOLD <? _); discriminate.
Qed.

End EspMeshRun.

(** ** The heap check of the configuration *)

Lemma heap_required_bound (max_hops : Z) :
  1 <= max_hops -> 0 <= heap_required max_hops <= 2 * max_hops + 6.
Proof.
  intros H. unfold heap_required.
  pose proof (Z.add_lxor_2land 4 (max_hops - 1)) as Hadd.
  assert (Hland : 0 <= Z.land 4 (max_hops - 1)) by (apply Z.land_nonneg; lia).
  assert (Hxor : 0 <= Z.lxor 4 (max_hops - 1)) by (apply Z.lxor_nonneg; lia).
  pose proof (Z.div_mod (Z.lxor 4 (max_hops - 1)) 3 ltac:(lia)) as Hq.
  pose proof (Z.mod_pos_bound (Z.lxor 4 (max_hops - 1)) 3 ltac:(lia)) as Hr.
  lia.
Qed.

(** X18. The heap check passes with a free heap of more than [2 * MAX_HOPS + 6]
    bytes: with the SDK calls succeeding, [esp_mesh_config] returns true.
    The bound it compares with grows with [MAX_HOPS] itself, not with the
    power [4^MAX_HOPS] of the comment in user_config.h. *)
Theorem esp_mesh_config_heap_check :
  forall (max_hops : Z) (env : config_env),
    1 <= max_hops ->
    espconn_mesh_encrypt_init env = true ->
    espconn_mesh_set_max_hops env = true ->
    espconn_mesh_set_ssid_prefix env = true ->
    espconn_mesh_group_id_init env = true ->
    2 * max_hops + 6 < system_get_free_heap_size env ->
    esp_mesh_config max_hops env = true.
Proof.
  intros max_hops env Hh He Hm Hs Hg Hheap. unfold esp_mesh_config.
  rewrite He, Hm, Hs, Hg. cbn [negb].
  pose proof (heap_required_bound max_hops Hh) as Hb.
  assert (Hw : wrap32 (heap_required max_hops) <= heap_required max_hops)
    by (unfold wrap32; apply Z.mod_le; lia).
  replace (wrap32 (heap_required max_hops) <? system_get_free_heap_size env)
    with true by (symmetry; apply Z.ltb_lt; lia).
  reflexivity.
Qed.

Lemma esp_mesh_config_heap_check_witness :
  esp_mesh_config MAX_HOPS (ConfigEnv true 15 true true true) = true.
Proof.
  apply esp_mesh_config_heap_check; try reflexivity; unfold MAX_HOPS; simpl; lia.
Defined.
